(** * x402 Solana SDK: amount codec, transaction builder, payment verifier
      and client orchestrator

    A shallow embedding of [sdk/solana-utils.ts], [sdk/client.ts] and
    [shared/x402-types.ts].  JavaScript strings are modelled by [string]
    (the amounts, addresses and header names handled here are ASCII),
    [bigint] by [Z], thrown exceptions by the [Throw] constructor of
    [result]. *)

From stdpp Require Import gmap strings.
From Stdlib Require Import ZArith Ascii String List Lia.
From Stdlib Require Import Decimal DecimalFacts DecimalString DecimalZ.
Import ListNotations.

Local Open Scope Z_scope.

(** ** Strings as JavaScript sees them *)

Module Js.

Definition len (s : string) : Z := Z.of_nat (String.length s).

Fixpoint take (n : nat) (s : string) : string :=
  match n, s with
  | S n', String c r => String c (take n' r)
  | _, _ => EmptyString
  end.

Fixpoint drop (n : nat) (s : string) : string :=
  match n, s with
  | S n', String _ r => drop n' r
  | _, _ => s
  end.

(** [String.prototype.slice]: a negative index counts from the end, both
    indices are clamped to the string, an absent [end] is the length. *)
Definition clamp (l i : Z) : Z :=
  if i <? 0 then Z.max (l + i) 0 else Z.min i l.

Definition slice (s : string) (start : Z) (stop : option Z) : string :=
  let l := len s in
  let from := clamp l start in
  let to := match stop with Some e => clamp l e | None => l end in
  if from <? to
  then take (Z.to_nat (to - from)) (drop (Z.to_nat from) s)
  else EmptyString.

(** The filler of [padStart]/[padEnd]: the pad string repeated and cut to
    [n] characters; [cur] is what is left of the current repetition. *)
Fixpoint fill (n : nat) (pad cur : string) : string :=
  match n with
  | O => EmptyString
  | S n' =>
      match cur with
      | String c r => String c (fill n' pad r)
      | EmptyString =>
          match pad with
          | String c r => String c (fill n' pad r)
          | EmptyString => EmptyString
          end
      end
  end.

Definition padEnd (s : string) (target : Z) (pad : string) : string :=
  if target <=? len s then s
  else s +:+ fill (Z.to_nat (target - len s)) pad pad.

Definition padStart (s : string) (target : Z) (pad : string) : string :=
  if target <=? len s then s
  else fill (Z.to_nat (target - len s)) pad pad +:+ s.

(** [s.split(sep)] for a one-character separator: never empty. *)
Fixpoint split (sep : ascii) (s : string) : list string :=
  match s with
  | EmptyString => [EmptyString]
  | String c r =>
      if Ascii.eqb c sep then EmptyString :: split sep r
      else match split sep r with
           | p :: ps => String c p :: ps
           | [] => [String c EmptyString]
           end
  end.

(** [x || d] on strings: the empty string and [undefined] are falsy. *)
Definition or_else (x : option string) (d : string) : string :=
  match x with
  | Some EmptyString | None => d
  | Some s => s
  end.

(** [parts[i]], [undefined] out of range. *)
Definition index {A} (l : list A) (i : nat) : option A := nth_error l i.

End Js.

(** ** Exceptions *)

Section Results.

Context {E : Type}.

Inductive result (A : Type) : Type :=
| Ok (a : A)
| Throw (e : E).

Global Arguments Ok {A} a.
Global Arguments Throw {A} e.

Definition bind {A B} (m : result A) (k : A -> result B) : result B :=
  match m with
  | Ok a => k a
  | Throw e => Throw e
  end.

(** [try { body } catch (error) { handler }] *)
Definition try_catch {A} (body : result A) (handler : E -> result A)
  : result A :=
  match body with
  | Ok a => Ok a
  | Throw e => handler e
  end.

End Results.

Arguments result : clear implicits.

Declare Scope result_scope.
Delimit Scope result_scope with result.
Notation "'let*' x ':=' m 'in' k" := (bind m (fun x => k))
  (at level 10, x pattern, m at level 100, k at level 200) : result_scope.

(** ** [BigInt(string)] and [bigint.toString()] *)

Module BigInt.

Local Open Scope char_scope.

(** StrWhiteSpaceChar, restricted to ASCII. *)
Definition is_space (c : ascii) : bool :=
  match c with
  | " " | "009" | "010" | "011" | "012" | "013" => true
  | _ => false
  end.

Fixpoint trim_start (s : string) : string :=
  match s with
  | String c r => if is_space c then trim_start r else s
  | EmptyString => EmptyString
  end.

Fixpoint trim_end (s : string) : string :=
  match s with
  | String c r =>
      match trim_end r with
      | EmptyString => if is_space c then EmptyString else String c EmptyString
      | r' => String c r'
      end
  | EmptyString => EmptyString
  end.

Definition trim (s : string) : string := trim_end (trim_start s).

Definition digit_value (c : ascii) : option Z :=
  let n := Z.of_nat (nat_of_ascii c) in
  (if (48 <=? n) && (n <=? 57) then Some (n - 48)
   else if (97 <=? n) && (n <=? 102) then Some (n - 87)
   else if (65 <=? n) && (n <=? 70) then Some (n - 55)
   else None)%Z.

(** Digits of a prefixed literal ([0x], [0o], [0b]) in the given radix. *)
Fixpoint radix_acc (radix : Z) (acc : Z) (s : string) : option Z :=
  match s with
  | EmptyString => Some acc
  | String c r =>
      match digit_value c with
      | Some d => if (d <? radix)%Z
                  then radix_acc radix (radix * acc + d)%Z r
                  else None
      | None => None
      end
  end.

Definition radix_literal (radix : Z) (s : string) : option Z :=
  match s with
  | EmptyString => None
  | _ => radix_acc radix 0 s
  end.

(** A run of decimal digits, at least one. *)
Definition decimal_digits (s : string) : option Z :=
  option_map Z.of_uint (NilZero.uint_of_string s).

(** StringToBigInt: surrounding white space is dropped, the empty string is
    zero, a decimal literal may carry a sign, the prefixed literals may
    not; anything else is a SyntaxError ([None] here). *)
Definition parse (s : string) : option Z :=
  match trim s with
  | EmptyString => Some 0%Z
  | String "0" (String ("x" | "X") r) => radix_literal 16 r
  | String "0" (String ("o" | "O") r) => radix_literal 8 r
  | String "0" (String ("b" | "B") r) => radix_literal 2 r
  | String "-" r => option_map Z.opp (decimal_digits r)
  | String "+" r => decimal_digits r
  | t => decimal_digits t
  end.

Definition toString (n : Z) : string := NilZero.string_of_int (Z.to_int n).

End BigInt.

(** ** Protocol types ([shared/x402-types.ts]) *)

Inductive PaymentScheme := exact | upto.
Inductive Network := mainnet_beta | devnet | testnet.
Inductive TokenType := SOL | USDC | USDT.
Inductive Commitment := processed | confirmed | finalized.

Record PaymentRequirements := {
  scheme : PaymentScheme;
  network : Network;
  amount : string;
  token : TokenType;
  recipient : string;
  memo : option string;
  deadline : option Z;
  requestId : option string
}.

Record PaymentProof := {
  proof_signature : string;
  proof_network : Network;
  proof_requestId : option string;
  proof_timestamp : Z
}.

(** What a [throw] carries.  [JsError name message] stands for the errors
    of the language and of the libraries ([SyntaxError], [Error], ...);
    [Thrown] for a thrown value that is not an [Error]; the other three are
    the classes of [x402-types.ts]. *)
#[warnings="-register-all"]
Inductive Error :=
| JsError (name message : string)
| Thrown (value : string)
| PaymentRequiredError (paymentRequirements : PaymentRequirements)
                       (message : string)
| TransactionFailedError (message : string) (details : option Error)
| InvalidPaymentProofError (message : string) (details : option Error).

(** [error instanceof Error ? error.message : "Unknown error"] *)
Definition error_message (e : Error) : string :=
  match e with
  | JsError _ m => m
  | Thrown _ => "Unknown error"
  | PaymentRequiredError _ m => m
  | TransactionFailedError m _ => m
  | InvalidPaymentProofError m _ => m
  end.

Definition error_code (e : Error) : option string :=
  match e with
  | PaymentRequiredError _ _ => Some "PAYMENT_REQUIRED"
  | TransactionFailedError _ _ => Some "TRANSACTION_FAILED"
  | InvalidPaymentProofError _ _ => Some "INVALID_PAYMENT_PROOF"
  | _ => None
  end.

Abbreviation res := (result Error).

Definition BigInt (s : string) : res Z :=
  match BigInt.parse s with
  | Some n => Ok n
  | None => Throw (JsError "SyntaxError"
                     ("Cannot convert " +:+ s +:+ " to a BigInt"))
  end.

(** ** Asset tables ([sdk/solana-utils.ts]) *)

Definition TOKEN_MINTS (n : Network) (t : TokenType) : string :=
  match n, t with
  | _, SOL => "So11111111111111111111111111111111111111112"
  | mainnet_beta, USDC => "EPjFWdd5AufqSSqeM2qN1xzybapC8G4wEGGkZwyTDt1v"
  | mainnet_beta, USDT => "Es9vMFrzaCERmJfrF4H2FYD4KCoNkY11McCe8BenwNYB"
  | devnet, USDC => "4zMMC9srt5Ri5X14GAgXhaHii3GnPAEERYPJgZJDncDU"
  | devnet, USDT => "EJwZgeZrdC8TXTQbQBoL6bfuAnFUUy1PVCMB4DYPzVaS"
  | testnet, USDC => "CpMah17kQEL2wqyMKt3mZBdTnZbkbfx4nqmQMFDP5vwp"
  | testnet, USDT => "EJwZgeZrdC8TXTQbQBoL6bfuAnFUUy1PVCMB4DYPzVaS"
  end.

Definition TOKEN_DECIMALS (t : TokenType) : Z :=
  match t with
  | SOL => 9
  | USDC => 6
  | USDT => 6
  end.

Definition token_name (t : TokenType) : string :=
  match t with
  | SOL => "SOL"
  | USDC => "USDC"
  | USDT => "USDT"
  end.

(** ** Amount codec *)

(** [BigInt(whole + fraction)], the fraction padded with zeros to the
    asset's precision and then cut at it. *)
Definition amountToBaseUnits (amount : string) (token : TokenType) : res Z :=
  let decimals := TOKEN_DECIMALS token in
  let parts := Js.split "." amount in
  let whole := Js.or_else (Js.index parts 0) "0" in
  let fraction :=
    Js.slice
      (Js.padEnd (Js.or_else (Js.index parts 1) EmptyString) decimals "0")
      0 (Some decimals) in
  BigInt (whole +:+ fraction).

(** A non-empty run of the character 0. *)
Fixpoint zeros1 (s : string) : bool :=
  match s with
  | String "0" EmptyString => true
  | String "0" r => zeros1 r
  | _ => false
  end.

(** Does the whole of [s] match [\.?0+$] from its first character? *)
Definition tail_matches (s : string) : bool :=
  match s with
  | String "." r => zeros1 r
  | _ => zeros1 s
  end.

(** [s.replace(/\.?0+$/, empty)]: the leftmost position from which the
    pattern reaches the end of the string is where the string is cut. *)
Fixpoint strip_zero_tail (s : string) : string :=
  if tail_matches s then EmptyString
  else match s with
       | String c r => String c (strip_zero_tail r)
       | EmptyString => EmptyString
       end.

Definition baseUnitsToAmount (baseUnits : Z) (token : TokenType) : string :=
  let decimals := TOKEN_DECIMALS token in
  let str := Js.padStart (BigInt.toString baseUnits) (decimals + 1) "0" in
  let whole := Js.or_else (Some (Js.slice str 0 (Some (- decimals)))) "0" in
  let fraction := Js.slice str (- decimals) None in
  strip_zero_tail (whole +:+ "." +:+ fraction).

(** *** What the codec is compared with *)

Definition is_digit (c : ascii) : bool :=
  match c with
  | "0" | "1" | "2" | "3" | "4" | "5" | "6" | "7" | "8" | "9" => true
  | _ => false
  end%char.

Fixpoint all_digits (s : string) : bool :=
  match s with
  | EmptyString => true
  | String c r => is_digit c && all_digits r
  end.

(** The number a run of decimal digits denotes. *)
Fixpoint digits_acc (acc : Z) (s : string) : Z :=
  match s with
  | EmptyString => acc
  | String c r => digits_acc (10 * acc + (Z.of_nat (nat_of_ascii c) - 48)) r
  end.

Definition digits_value (s : string) : Z := digits_acc 0 s.

(** The text before the first point, and the text after it if there is
    a point. *)
Fixpoint split_point (d : string) : string * option string :=
  match d with
  | EmptyString => (EmptyString, None)
  | String c r =>
      if Ascii.eqb c "." then (EmptyString, Some r)
      else let (w, f) := split_point r in (String c w, f)
  end.

(** A whole part: digits, at least one. *)
Definition whole_digits (w : string) : bool :=
  match w with
  | EmptyString => false
  | _ => all_digits w
  end.

(** A whole part written without redundant leading zeros. *)
Definition whole_canonical (w : string) : bool :=
  match w with
  | EmptyString => false
  | String "0" r => match r with EmptyString => true | _ => false end
  | _ => all_digits w
  end.

(** A decimal amount within the precision of [token]: a whole part, and
    optionally a point followed by at most [TOKEN_DECIMALS token] digits. *)
Definition valid_amount (token : TokenType) (d : string) : bool :=
  let (w, f) := split_point d in
  whole_canonical w &&
  match f with
  | None => true
  | Some f => all_digits f && (Js.len f <=? TOKEN_DECIMALS token)
  end.

Fixpoint drop_trailing_zeros (s : string) : string :=
  match s with
  | EmptyString => EmptyString
  | String c r =>
      match drop_trailing_zeros r with
      | EmptyString =>
          if Ascii.eqb c "0" then EmptyString else String c EmptyString
      | r' => String c r'
      end
  end.

(** The canonical form of a decimal amount: no trailing zeros in the
    fractional part, and no point when nothing follows it. *)
Definition canonical (d : string) : string :=
  let (w, f) := split_point d in
  match f with
  | None => w
  | Some f =>
      match drop_trailing_zeros f with
      | EmptyString => w
      | f' => w +:+ "." +:+ f'
      end
  end.

Fixpoint zeros (n : nat) : string :=
  match n with
  | O => EmptyString
  | S n' => String "0" (zeros n')
  end.

(** ** The Solana libraries

    [@solana/web3.js] and [@solana/spl-token] are outside the repository:
    what the SDK uses of them is an interface.  [PublicKey_new] is
    [new PublicKey(text)], which throws on text that is not a key;
    [getAssociatedTokenAddress mint owner] is the call with
    [allowOwnerOffCurve = false], which throws for an owner off the
    curve. *)

Class Web3 := {
  PublicKey : Type;
  PublicKey_new : string -> res PublicKey;
  PublicKey_equals : PublicKey -> PublicKey -> bool;
  toBase58 : PublicKey -> string;
  getAssociatedTokenAddress : PublicKey -> PublicKey -> res PublicKey
}.

(** [array.findIndex(p)], [None] for -1. *)
Fixpoint findIndex {A} (p : A -> bool) (l : list A) : option nat :=
  match l with
  | [] => None
  | x :: r => if p x then Some O else option_map S (findIndex p r)
  end.

(** [array.find(p)] *)
Fixpoint find {A} (p : A -> bool) (l : list A) : option A :=
  match l with
  | [] => None
  | x :: r => if p x then Some x else find p r
  end.

(** [balances[i] || 0] on an array of integer-valued numbers. *)
Definition number_at (l : list Z) (i : nat) : Z :=
  match nth_error l i with
  | Some n => n
  | None => 0
  end.

(** [x || []] *)
Definition or_empty {A} (l : option (list A)) : list A :=
  match l with
  | Some l => l
  | None => []
  end.

Section Ledger.

Context `{Web3}.

Record TokenBalance := {
  accountIndex : Z;
  mint : string;
  owner : option string;
  uiTokenAmount_amount : string
}.

Record ConfirmedTransactionMeta := {
  err : option string;
  preBalances : list Z;
  postBalances : list Z;
  preTokenBalances : option (list TokenBalance);
  postTokenBalances : option (list TokenBalance)
}.

(** A fetched transaction.  [getAccountKeys] is the outcome of
    [transaction.message.getAccountKeys()]: the static account keys, or
    the exception of the library. *)
Record TransactionResponse := {
  slot : Z;
  meta : option ConfirmedTransactionMeta;
  getAccountKeys : res (list PublicKey)
}.

Record AccountInfo := {
  lamports : Z;
  account_owner : PublicKey
}.

Inductive Instruction :=
| SystemProgram_transfer (fromPubkey toPubkey : PublicKey) (lamports : Z)
| createAssociatedTokenAccountInstruction
    (payer associatedToken owner mint : PublicKey)
| createTransferInstruction
    (source destination owner : PublicKey) (amount : Z).

Record Transaction := {
  instructions : list Instruction;
  recentBlockhash : option string;
  feePayer : option PublicKey;
  signers : list PublicKey
}.

Record SendOptions := {
  skipPreflight : bool;
  preflightCommitment : Commitment
}.

(** The answers of the RPC node, one field per method the SDK calls.
    [confirmTransaction] answers with [result.value.err]. *)
Record Connection := {
  getTransaction : string -> Commitment -> res (option TransactionResponse);
  getSlot : Commitment -> res Z;
  getAccountInfo : PublicKey -> res (option AccountInfo);
  getLatestBlockhash : res string;
  sendRawTransaction : Transaction -> option SendOptions -> res string;
  rpc_confirmTransaction : string -> Commitment -> res (option string)
}.

(** *** Payment verifier *)

Definition is_finalized (c : Commitment) : bool :=
  match c with
  | finalized => true
  | _ => false
  end.

(** [transaction.meta?.err], as a condition. *)
Definition meta_err (tx : TransactionResponse) : bool :=
  match meta tx with
  | Some m => match err m with Some _ => true | None => false end
  | None => false
  end.

(** The branch for SOL, from [getAccountKeys] to its [return]. *)
Definition verify_native (tx : TransactionResponse)
    (recipient : PublicKey) (expectedAmount : Z) : res bool :=
  (let* accountKeys := getAccountKeys tx in
   match findIndex (fun key => PublicKey_equals key recipient)
                   accountKeys with
   | None => Ok false
   | Some recipientIndex =>
       let preBalance :=
         match meta tx with
         | Some m => number_at (preBalances m) recipientIndex
         | None => 0
         end in
       let postBalance :=
         match meta tx with
         | Some m => number_at (postBalances m) recipientIndex
         | None => 0
         end in
       let actualAmount := postBalance - preBalance in
       if actualAmount <? expectedAmount then Ok false else Ok true
   end)%result.

Definition balance_matches (recipient mintAddress : PublicKey)
    (balance : TokenBalance) : bool :=
  match owner balance with
  | Some o => String.eqb o (toBase58 recipient)
  | None => false
  end && String.eqb (mint balance) (toBase58 mintAddress).

(** The branch for USDC and USDT. *)
Definition verify_token (tx : TransactionResponse)
    (requirements : PaymentRequirements)
    (recipient : PublicKey) (expectedAmount : Z) : res bool :=
  (let* mintAddress :=
     PublicKey_new
       (TOKEN_MINTS (network requirements) (token requirements)) in
   let* recipientATA := getAssociatedTokenAddress mintAddress recipient in
   let postTokenBalances_ :=
     or_empty (match meta tx with
               | Some m => postTokenBalances m
               | None => None
               end) in
   let preTokenBalances_ :=
     or_empty (match meta tx with
               | Some m => preTokenBalances m
               | None => None
               end) in
   let postBalance :=
     find (balance_matches recipient mintAddress) postTokenBalances_ in
   let preBalance :=
     find (balance_matches recipient mintAddress) preTokenBalances_ in
   match postBalance with
   | None => Ok false
   | Some post =>
       let* postAmount := BigInt (uiTokenAmount_amount post) in
       let* preAmount :=
         match preBalance with
         | None => Ok 0
         | Some pre =>
             match uiTokenAmount_amount pre with
             | EmptyString => Ok 0
             | a => BigInt a
             end
         end in
       let actualAmount := postAmount - preAmount in
       if actualAmount <? expectedAmount then Ok false else Ok true
   end)%result.

(** From [const recipient = ...] to the end of the [try] block: the
    checks on the recipient and on the amount. *)
Definition verify_transfer (tx : TransactionResponse)
    (requirements : PaymentRequirements) : res bool :=
  (let* recipient := PublicKey_new (recipient requirements) in
   let* expectedAmount := BigInt (amount requirements) in
   match token requirements with
   | SOL => verify_native tx recipient expectedAmount
   | USDC | USDT => verify_token tx requirements recipient expectedAmount
   end)%result.

(** [commitment === "finalized" && transaction.slot], then the distance
    to the current slot: is the transaction too young? *)
Definition too_young (connection : Connection) (commitment : Commitment)
    (tx : TransactionResponse) : res bool :=
  if is_finalized commitment && negb (slot tx =? 0)
  then (let* currentSlot := getSlot connection commitment in
        Ok (currentSlot - slot tx <? 32))%result
  else Ok false.

(** The body of the [try] block of [verifyPaymentTransaction]. *)
Definition verify_body (connection : Connection) (signature : string)
    (requirements : PaymentRequirements) (commitment : Commitment)
  : res bool :=
  (let* transaction := getTransaction connection signature commitment in
   match transaction with
   | None => Ok false
   | Some tx =>
       if meta_err tx then Ok false
       else
         let* young := too_young connection commitment tx in
         if (young : bool) then Ok false
         else verify_transfer tx requirements
   end)%result.

Definition verifyPaymentTransaction (connection : Connection)
    (signature : string) (requirements : PaymentRequirements)
    (commitment : Commitment) : res bool :=
  try_catch (verify_body connection signature requirements commitment)
            (fun _ => Ok false).

(** *** Words for the statements about the verifier *)

(** The token balances of a transaction after and before it, an absent
    list being empty. *)
Definition posts_of (tx : TransactionResponse) : list TokenBalance :=
  or_empty (match meta tx with
            | Some m => postTokenBalances m
            | None => None
            end).

Definition pres_of (tx : TransactionResponse) : list TokenBalance :=
  or_empty (match meta tx with
            | Some m => preTokenBalances m
            | None => None
            end).

(** The depth check lets the transaction through. *)
Definition deep_enough (connection : Connection) (commitment : Commitment)
    (tx : TransactionResponse) : Prop :=
  commitment = finalized -> slot tx <> 0 ->
  exists currentSlot,
    getSlot connection commitment = Ok currentSlot /\
    32 <= currentSlot - slot tx.

(** The verification gets as far as the amount: the transaction is there,
    it succeeded, it is deep enough, and the recipient and the amount of
    the requirements are read as [recipientKey] and [expectedAmount]. *)
Definition reaches_amount (connection : Connection) (signature : string)
    (requirements : PaymentRequirements) (commitment : Commitment)
    (tx : TransactionResponse) (recipientKey : PublicKey)
    (expectedAmount : Z) : Prop :=
  getTransaction connection signature commitment = Ok (Some tx) /\
  meta_err tx = false /\
  deep_enough connection commitment tx /\
  PublicKey_new (recipient requirements) = Ok recipientKey /\
  BigInt (amount requirements) = Ok expectedAmount.

End Ledger.

(** *** A ledger to compute on

    Keys taken as their base-58 text, for running the SDK on concrete
    ledgers. *)

Definition is_base58 (c : ascii) : bool :=
  let n := nat_of_ascii c in
  (Nat.leb 49 n && Nat.leb n 57)
  || (Nat.leb 65 n && Nat.leb n 90
      && negb (Nat.eqb n 73) && negb (Nat.eqb n 79))
  || (Nat.leb 97 n && Nat.leb n 122 && negb (Nat.eqb n 108)).

Fixpoint all_base58 (s : string) : bool :=
  match s with
  | EmptyString => true
  | String c r => is_base58 c && all_base58 r
  end.

Definition text_keys : Web3 := {|
  PublicKey := string;
  PublicKey_new := fun s =>
    if all_base58 s && Nat.leb 32 (String.length s)
       && Nat.leb (String.length s) 44
    then Ok s
    else Throw (JsError "Error" "Invalid public key input");
  PublicKey_equals := String.eqb;
  toBase58 := fun k => k;
  getAssociatedTokenAddress := fun mint owner => Ok (owner +:+ "/" +:+ mint)
|}.

(** Sample ledgers: a payer, a merchant, a payment of one million base
    units from the one to the other. *)
Module Sample.

#[local] Existing Instance text_keys.

Definition payer : string := "Payer111111111111111111111111111111111111111".
Definition merchant : string := "Merchant111111111111111111111111111111111111".
Definition stranger : string := "Stranger111111111111111111111111111111111111".
Definition systemProgram : string := "11111111111111111111111111111111".
Definition tokenProgram : string :=
  "TokenkegQfeZyiNwAJbNbGKPFXCWuBvf9Ss623VQ5DA".
Definition payerUsdc : string := "PayerUsdc11111111111111111111111111111111111".
Definition merchantUsdc : string := "MerchantUsdc11111111111111111111111111111111".

Definition requirements_of (who : string) (t : TokenType) (units : string)
  : PaymentRequirements :=
  {| scheme := exact; network := devnet; amount := units; token := t;
     recipient := who; memo := None; deadline := None;
     requestId := Some "req_1" |}.

Definition requirements : TokenType -> string -> PaymentRequirements :=
  requirements_of merchant.

(** A transfer of lamports: the fee payer loses the amount and the fee,
    the second account gains [gain]. *)
Definition nativeTransfer (at_slot : Z) (to : string) (gain : Z)
  : TransactionResponse (H := text_keys) :=
  {| slot := at_slot;
     meta := Some {| err := None;
                     preBalances := [5000000; 20; 1];
                     postBalances := [5000000 - gain - 5000; 20 + gain; 1];
                     preTokenBalances := None;
                     postTokenBalances := None |};
     getAccountKeys := Ok [payer; to; systemProgram] |}.

Definition usdcBalance (index : Z) (holder : string) (units : string)
  : TokenBalance :=
  {| accountIndex := index; mint := TOKEN_MINTS devnet USDC;
     owner := Some holder; uiTokenAmount_amount := units |}.

(** A transfer of USDC between two token accounts that exist: the
    wallet of the merchant is not among the accounts. *)
Definition usdcTransfer (at_slot : Z) (before after : string)
  : TransactionResponse (H := text_keys) :=
  {| slot := at_slot;
     meta := Some {| err := None;
                     preBalances := [5000000; 2039280; 2039280; 1];
                     postBalances := [4995000; 2039280; 2039280; 1];
                     preTokenBalances :=
                       Some [usdcBalance 1 payer "7000000";
                             usdcBalance 2 merchant before];
                     postTokenBalances :=
                       Some [usdcBalance 1 payer "6000000";
                             usdcBalance 2 merchant after] |};
     getAccountKeys := Ok [payer; payerUsdc; merchantUsdc; tokenProgram] |}.

(** A node that knows one transaction, under the signature [sig1], and
    whose current slot is [head].  No token account exists. *)
Definition node (tx : TransactionResponse (H := text_keys)) (head : Z)
  : Connection (H := text_keys) :=
  {| getTransaction := fun signature _ =>
       if String.eqb signature "sig1" then Ok (Some tx) else Ok None;
     getSlot := fun _ => Ok head;
     getAccountInfo := fun _ => Ok None;
     getLatestBlockhash := Ok "blockhash1";
     sendRawTransaction := fun _ _ => Ok "sig1";
     rpc_confirmTransaction := fun _ _ => Ok None |}.

Definition asked : PaymentRequirements := requirements SOL "1000000".

(** The node after a payment of [units] lamports to the merchant at
    slot 100, five slots ago. *)
Definition paid (units : Z) : Connection (H := text_keys) :=
  node (nativeTransfer 100 merchant units) 105.

End Sample.

(** ** JSON values, and the schema of the payment requirements *)

(** A parsed JSON value.  Numbers are the integer-valued ones; an object
    lists each of its keys once. *)
#[warnings="-register-all"]
Inductive Json :=
| JNull
| JBool (b : bool)
| JNum (n : Z)
| JStr (s : string)
| JArr (items : list Json)
| JObj (fields : list (string * Json)).

Fixpoint field (k : string) (fields : list (string * Json)) : option Json :=
  match fields with
  | [] => None
  | (k', v) :: r => if String.eqb k k' then Some v else field k r
  end.

Definition ZodError (path : string) : Error :=
  JsError "ZodError" ("Invalid input at " +:+ path).

Definition required_string (k : string) (o : list (string * Json))
  : res string :=
  match field k o with
  | Some (JStr s) => Ok s
  | _ => Throw (ZodError k)
  end.

Definition optional_string (k : string) (o : list (string * Json))
  : res (option string) :=
  match field k o with
  | None => Ok None
  | Some (JStr s) => Ok (Some s)
  | Some _ => Throw (ZodError k)
  end.

Definition optional_number (k : string) (o : list (string * Json))
  : res (option Z) :=
  match field k o with
  | None => Ok None
  | Some (JNum n) => Ok (Some n)
  | Some _ => Throw (ZodError k)
  end.

Definition PaymentSchemeSchema (k : string) (o : list (string * Json))
  : res PaymentScheme :=
  match field k o with
  | Some (JStr "exact") => Ok exact
  | Some (JStr "upto") => Ok upto
  | _ => Throw (ZodError k)
  end.

Definition NetworkSchema (k : string) (o : list (string * Json))
  : res Network :=
  match field k o with
  | Some (JStr "mainnet-beta") => Ok mainnet_beta
  | Some (JStr "devnet") => Ok devnet
  | Some (JStr "testnet") => Ok testnet
  | _ => Throw (ZodError k)
  end.

Definition TokenTypeSchema (k : string) (o : list (string * Json))
  : res TokenType :=
  match field k o with
  | Some (JStr "SOL") => Ok SOL
  | Some (JStr "USDC") => Ok USDC
  | Some (JStr "USDT") => Ok USDT
  | _ => Throw (ZodError k)
  end.

(** [PaymentRequirementsSchema.parse(body)]: unknown keys are dropped. *)
Definition PaymentRequirementsSchema_parse (body : Json)
  : res PaymentRequirements :=
  match body with
  | JObj o =>
      (let* scheme_ := PaymentSchemeSchema "scheme" o in
       let* network_ := NetworkSchema "network" o in
       let* amount_ := required_string "amount" o in
       let* token_ := TokenTypeSchema "token" o in
       let* recipient_ := required_string "recipient" o in
       let* memo_ := optional_string "memo" o in
       let* deadline_ := optional_number "deadline" o in
       let* requestId_ := optional_string "requestId" o in
       Ok {| scheme := scheme_; network := network_; amount := amount_;
             token := token_; recipient := recipient_; memo := memo_;
             deadline := deadline_; requestId := requestId_ |})%result
  | _ => Throw (ZodError EmptyString)
  end.

Definition network_name (n : Network) : string :=
  match n with
  | mainnet_beta => "mainnet-beta"
  | devnet => "devnet"
  | testnet => "testnet"
  end.

Definition hex_digit (n : nat) : ascii :=
  ascii_of_nat (if Nat.ltb n 10 then 48 + n else 87 + n).

Definition dquote : ascii := "034"%char.

(** One character inside a JSON string literal. *)
Definition JSON_escape (c : ascii) : string :=
  let n := nat_of_ascii c in
  if Ascii.eqb c dquote then String "\" (String dquote EmptyString)
  else if Ascii.eqb c "\" then "\\"
  else if Nat.eqb n 8 then "\b"
  else if Nat.eqb n 9 then "\t"
  else if Nat.eqb n 10 then "\n"
  else if Nat.eqb n 12 then "\f"
  else if Nat.eqb n 13 then "\r"
  else if Nat.ltb n 32
       then "\u00" +:+ String (hex_digit (Nat.div n 16))
                       (String (hex_digit (Nat.modulo n 16)) EmptyString)
       else String c EmptyString.

Fixpoint JSON_escape_all (s : string) : string :=
  match s with
  | EmptyString => EmptyString
  | String c r => JSON_escape c +:+ JSON_escape_all r
  end.

Definition JSON_quote (s : string) : string :=
  String dquote (JSON_escape_all s) +:+ String dquote EmptyString.

(** [JSON.stringify(proof)]: the keys in the order the object literal of
    [executePayment] gives them, an [undefined] request id left out. *)
Definition JSON_stringify_proof (p : PaymentProof) : string :=
  "{" +:+ JSON_quote "signature" +:+ ":" +:+ JSON_quote (proof_signature p)
  +:+ "," +:+ JSON_quote "network" +:+ ":"
  +:+ JSON_quote (network_name (proof_network p))
  +:+ match proof_requestId p with
      | Some r => "," +:+ JSON_quote "requestId" +:+ ":" +:+ JSON_quote r
      | None => EmptyString
      end
  +:+ "," +:+ JSON_quote "timestamp" +:+ ":"
  +:+ BigInt.toString (proof_timestamp p) +:+ "}".

(** ** HTTP requests *)

Definition to_lower (c : ascii) : ascii :=
  let n := nat_of_ascii c in
  if Nat.leb 65 n && Nat.leb n 90 then ascii_of_nat (n + 32) else c.

Fixpoint lower (s : string) : string :=
  match s with
  | EmptyString => EmptyString
  | String c r => String (to_lower c) (lower r)
  end.

(** A [Headers] object: the values by lower-cased name.  Names and values
    are taken to be valid and free of surrounding white space, so that the
    checks and the trimming of the class do nothing. *)
Abbreviation Headers := (gmap string string).

Definition Headers_set (name value : string) (h : Headers) : Headers :=
  <[lower name := value]> h.

(** [headers.append]: a second value for a name joins the first. *)
Definition Headers_append (name value : string) (h : Headers) : Headers :=
  match h !! lower name with
  | Some old => <[lower name := old +:+ ", " +:+ value]> h
  | None => <[lower name := value]> h
  end.

Inductive HeadersInit :=
| HeadersPairs (pairs : list (string * string))
| HeadersObject (h : Headers).

(** [new Headers(init)] *)
Definition Headers_new (init : option HeadersInit) : Headers :=
  match init with
  | None => ∅
  | Some (HeadersObject h) => h
  | Some (HeadersPairs pairs) =>
      fold_left (fun h kv => Headers_append (fst kv) (snd kv) h) pairs ∅
  end.

(** [RequestInit]; [others] holds the members the SDK never names
    (mode, credentials, cache, ...). *)
Record RequestInit := {
  method : option string;
  body : option string;
  headers : option HeadersInit;
  others : list (string * string)
}.

Record Response := {
  status : Z;
  json : res Json
}.

(** ** Client orchestrator ([sdk/client.ts]) and transaction builder *)

(** What the client takes from its surroundings: [transaction.sign(keypair)]
    and [transaction.serialize()] of the library (the wire form of a
    transaction is the transaction), the global [fetch], and the clock. *)
Class Runtime `{Web3} := {
  Transaction_sign : Transaction -> PublicKey -> res Transaction;
  Transaction_serialize : Transaction -> res Transaction;
  global_fetch : string -> RequestInit -> res Response;
  Date_now : Z
}.

Section Client.

Context `{Runtime}.

(** Every call that leaves the process, in the order it is made. *)
Inductive Event :=
| HttpFetch (url : string) (init : RequestInit)
| RpcGetAccountInfo (address : PublicKey)
| RpcGetLatestBlockhash
| RpcSendRawTransaction (wire : Transaction) (options : option SendOptions)
| RpcConfirmTransaction (signature : string) (commitment : Commitment)
| WalletSignTransaction (transaction : Transaction).

(** An asynchronous computation: it extends the log of calls and ends
    with a value or a thrown error. *)
Definition Promise (A : Type) : Type := list Event -> res A * list Event.

Definition resolve {A} (a : A) : Promise A := fun log => (Ok a, log).

Definition reject {A} (e : Error) : Promise A := fun log => (Throw e, log).

Definition settled {A} (r : res A) : Promise A := fun log => (r, log).

(** A call to the outside: logged, then answered. *)
Definition call {A} (ev : Event) (answer : res A) : Promise A :=
  fun log => (answer, log ++ [ev]).

Definition await {A B} (m : Promise A) (k : A -> Promise B) : Promise B :=
  fun log =>
    match m log with
    | (Ok a, log') => k a log'
    | (Throw e, log') => (Throw e, log')
    end.

Definition try_await {A} (body : Promise A) (handler : Error -> Promise A)
  : Promise A :=
  fun log =>
    match body log with
    | (Ok a, log') => (Ok a, log')
    | (Throw e, log') => handler e log'
    end.

Notation "'let!' x ':=' m 'in' k" := (await m (fun x => k))
  (at level 10, x name, m at level 100, k at level 200).

Inductive Signer :=
| Keypair (publicKey : PublicKey) (secretKey : string)
| WalletAdapter (publicKey : PublicKey)
                (signTransaction : Transaction -> res Transaction).

Record X402ClientConfig := {
  config_network : Network;
  config_rpcEndpoint : option string;
  config_signer : option Signer;
  config_autoRetry : option bool;
  config_maxRetries : option Z;
  config_commitment : option Commitment
}.

Record X402Client := {
  connection : Connection;
  config : X402ClientConfig
}.

Record X402FetchOptions := {
  autoPayment : option bool;
  signer : option Signer;
  onPaymentRequired : option (PaymentRequirements -> Promise PaymentProof);
  fetchOptions : RequestInit
}.

Definition MAX_SAFE_INTEGER : Z := 9007199254740991.

Definition empty_transaction : Transaction :=
  {| instructions := []; recentBlockhash := None; feePayer := None;
     signers := [] |}.

Definition add (i : Instruction) (t : Transaction) : Transaction :=
  {| instructions := instructions t ++ [i];
     recentBlockhash := recentBlockhash t; feePayer := feePayer t;
     signers := signers t |}.

(** The last three statements of both builders. *)
Definition stamp (connection : Connection) (payer : PublicKey)
    (t : Transaction) : Promise Transaction :=
  let! blockhash :=
    call RpcGetLatestBlockhash (getLatestBlockhash connection) in
  resolve {| instructions := instructions t;
             recentBlockhash := Some blockhash; feePayer := Some payer;
             signers := signers t |}.

Definition createSOLPaymentTransaction (connection : Connection)
    (payer : PublicKey) (requirements : PaymentRequirements)
  : Promise Transaction :=
  let! recipient := settled (PublicKey_new (recipient requirements)) in
  let! lamports := settled (BigInt (amount requirements)) in
  if MAX_SAFE_INTEGER <? lamports
  then reject (TransactionFailedError
                 ("Amount " +:+ BigInt.toString lamports +:+
                  " exceeds safe integer range. Use a smaller amount.")
                 None)
  else
    stamp connection payer
      (add (SystemProgram_transfer payer recipient lamports)
           empty_transaction).

Definition createTokenPaymentTransaction (connection : Connection)
    (payer : PublicKey) (requirements : PaymentRequirements)
  : Promise Transaction :=
  let! recipient := settled (PublicKey_new (recipient requirements)) in
  let! mintAddress :=
    settled (PublicKey_new
               (TOKEN_MINTS (network requirements) (token requirements))) in
  let! amount := settled (BigInt (amount requirements)) in
  let! senderATA := settled (getAssociatedTokenAddress mintAddress payer) in
  let! recipientATA :=
    settled (getAssociatedTokenAddress mintAddress recipient) in
  let! senderAccount :=
    call (RpcGetAccountInfo senderATA)
         (getAccountInfo connection senderATA) in
  match senderAccount with
  | None =>
      reject (TransactionFailedError
                ("Sender does not have an associated token account for "
                 +:+ token_name (token requirements) +:+ ". " +:+
                 "Please create one first at address: " +:+
                 toBase58 senderATA)
                None)
  | Some _ =>
      let! recipientAccount :=
        call (RpcGetAccountInfo recipientATA)
             (getAccountInfo connection recipientATA) in
      let transaction :=
        match recipientAccount with
        | None =>
            add (createAssociatedTokenAccountInstruction
                   payer recipientATA recipient mintAddress)
                empty_transaction
        | Some _ => empty_transaction
        end in
      stamp connection payer
        (add (createTransferInstruction senderATA recipientATA payer amount)
             transaction)
  end.

(** The error of the builder for a payer without token account. *)
Definition missing_source_account (requirements : PaymentRequirements)
    (senderATA : PublicKey) : Error :=
  TransactionFailedError
    ("Sender does not have an associated token account for " +:+
     token_name (token requirements) +:+ ". " +:+
     "Please create one first at address: " +:+ toBase58 senderATA)
    None.

Definition createPaymentTransaction (connection : Connection)
    (payer : PublicKey) (requirements : PaymentRequirements)
  : Promise Transaction :=
  match token requirements with
  | SOL => createSOLPaymentTransaction connection payer requirements
  | _ => createTokenPaymentTransaction connection payer requirements
  end.

Definition default_send_options : SendOptions :=
  {| skipPreflight := false; preflightCommitment := confirmed |}.

Definition signAndSendTransaction (connection : Connection)
    (transaction : Transaction) (signer_publicKey : PublicKey)
    (options : option SendOptions) : Promise string :=
  try_await
    (let! signed := settled (Transaction_sign transaction signer_publicKey) in
     let! wire := settled (Transaction_serialize signed) in
     let options := match options with
                    | Some o => o
                    | None => default_send_options
                    end in
     call (RpcSendRawTransaction wire (Some options))
          (sendRawTransaction connection wire (Some options)))
    (fun error =>
       reject (TransactionFailedError
                 ("Failed to send transaction: " +:+ error_message error)
                 (Some error))).

Definition confirmTransaction (connection : Connection)
    (signature : string) (commitment : Commitment) : Promise bool :=
  try_await
    (let! result_err :=
       call (RpcConfirmTransaction signature commitment)
            (rpc_confirmTransaction connection signature commitment) in
     resolve (match result_err with Some _ => false | None => true end))
    (fun error =>
       reject (TransactionFailedError
                 ("Failed to confirm transaction: " +:+ error_message error)
                 (Some error))).

Definition commitment_name (c : Commitment) : string :=
  match c with
  | processed => "processed"
  | confirmed => "confirmed"
  | finalized => "finalized"
  end.

Definition getPublicKey (signer : Signer) : PublicKey :=
  match signer with
  | Keypair pk _ => pk
  | WalletAdapter pk _ => pk
  end.

Definition parsePaymentRequirements (response : Response)
  : Promise PaymentRequirements :=
  try_await
    (let! body := settled (json response) in
     settled (PaymentRequirementsSchema_parse body))
    (fun error =>
       reject (JsError "Error"
                 ("Failed to parse payment requirements: " +:+
                  error_message error))).

Definition executePayment (client : X402Client)
    (requirements : PaymentRequirements) (signer : Signer)
  : Promise PaymentProof :=
  try_await
    (let publicKey := getPublicKey signer in
     let! transaction :=
       createPaymentTransaction (connection client) publicKey requirements in
     let! signature :=
       match signer with
       | Keypair pk _ =>
           signAndSendTransaction (connection client) transaction pk None
       | WalletAdapter _ signTransaction =>
           let! signedTx := call (WalletSignTransaction transaction)
                            (signTransaction transaction) in
           let! wire := settled (Transaction_serialize signedTx) in
           call (RpcSendRawTransaction wire None)
                (sendRawTransaction (connection client) wire None)
       end in
     let commitment :=
       match config_commitment (config client) with
       | Some c => c
       | None => confirmed
       end in
     let! confirmed_ :=
       confirmTransaction (connection client) signature commitment in
     if negb confirmed_
     then reject (TransactionFailedError
                    ("Transaction failed to confirm at " +:+
                     commitment_name commitment +:+ " commitment level")
                    None)
     else resolve {| proof_signature := signature;
                     proof_network := network requirements;
                     proof_requestId := requestId requirements;
                     proof_timestamp := Date_now |})
    (fun error =>
       reject (TransactionFailedError
                 ("Payment execution failed: " +:+ error_message error)
                 (Some error))).

(** The [RequestInit] of the second request. *)
Definition retry_init (options : RequestInit) (proof : PaymentProof)
  : RequestInit :=
  let headers0 := Headers_new (headers options) in
  let headers1 :=
    Headers_set "X-Payment" (JSON_stringify_proof proof) headers0 in
  let headers2 := Headers_set "Content-Type" "application/json" headers1 in
  {| method := method options; body := body options;
     headers := Some (HeadersObject headers2); others := others options |}.

Definition retryWithPayment (url : string) (options : RequestInit)
    (proof : PaymentProof) : Promise Response :=
  let init := retry_init options proof in
  call (HttpFetch url init) (global_fetch url init).

Definition fetch (client : X402Client) (url : string)
    (options : X402FetchOptions) : Promise Response :=
  let autoPayment_ :=
    match autoPayment options with Some b => b | None => true end in
  let requestSigner :=
    match signer options with
    | Some s => Some s
    | None => config_signer (config client)
    end in
  let! response :=
    call (HttpFetch url (fetchOptions options))
         (global_fetch url (fetchOptions options)) in
  if (status response =? 402) && autoPayment_
  then
    match requestSigner with
    | None =>
        let! requirements := parsePaymentRequirements response in
        reject (PaymentRequiredError
                  requirements "Payment required but no signer provided")
    | Some requestSigner =>
        let! requirements := parsePaymentRequirements response in
        let! paymentProof :=
          match onPaymentRequired options with
          | Some handler => handler requirements
          | None => executePayment client requirements requestSigner
          end in
        retryWithPayment url (fetchOptions options) paymentProof
    end
  else resolve response.

End Client.

(** A sample server and client: the server answers 402 with the
    requirements until a request carries a payment header. *)
Module SampleClient.

Import Sample.
#[local] Existing Instance text_keys.

Definition challenge : Response :=
  {| status := 402;
     json := Ok (JObj [("scheme", JStr "exact"); ("network", JStr "devnet");
                       ("amount", JStr "1000000"); ("token", JStr "SOL");
                       ("recipient", JStr merchant);
                       ("requestId", JStr "req_1")]) |}.

Definition served : Response :=
  {| status := 200; json := Ok (JObj [("data", JStr "premium")]) |}.

#[local] Instance runtime : Runtime :=
  {| Transaction_sign := fun t k =>
       Ok {| instructions := instructions t;
             recentBlockhash := recentBlockhash t;
             feePayer := feePayer t; signers := signers t ++ [k] |};
     Transaction_serialize := fun t => Ok t;
     global_fetch := fun _ init =>
       match Headers_new (headers init) !! "x-payment" with
       | Some _ => Ok served
       | None => Ok challenge
       end;
     Date_now := 1700000000000 |}.

Definition client (s : option Signer) : X402Client :=
  {| connection := paid 1000000;
     config := {| config_network := devnet; config_rpcEndpoint := None;
                  config_signer := s; config_autoRetry := Some true;
                  config_maxRetries := Some 3;
                  config_commitment := Some confirmed |} |}.

Definition post : RequestInit :=
  {| method := Some "POST"; body := Some "prompt";
     headers := Some (HeadersPairs [("Content-Type", "text/plain");
                                    ("Accept", "text/html")]);
     others := [("mode", "cors")] |}.

Definition options (auto : option bool) (s : option Signer)
  : X402FetchOptions :=
  {| autoPayment := auto; signer := s; onPaymentRequired := None;
     fetchOptions := post |}.

Definition proof : PaymentProof :=
  {| proof_signature := "sig1"; proof_network := devnet;
     proof_requestId := Some "req_1"; proof_timestamp := 1700000000000 |}.

End SampleClient.

(** ** Words for the statements about the codec *)

Abbreviation su := NilEmpty.string_of_uint.

Definition decimals_nat (token : TokenType) : nat :=
  Z.to_nat (TOKEN_DECIMALS token).

(** ** The calls of a log *)

Section Logs.

Context `{Web3}.

Definition is_http (e : Event) : bool :=
  match e with
  | HttpFetch _ _ => true
  | _ => false
  end.

Definition is_send (e : Event) : bool :=
  match e with
  | RpcSendRawTransaction _ _ => true
  | _ => false
  end.

Definition is_wallet (e : Event) : bool :=
  match e with
  | WalletSignTransaction _ => true
  | _ => false
  end.

(** How many calls of a log are of a kind. *)
Fixpoint count (kind : Event -> bool) (log : list Event) : nat :=
  match log with
  | [] => O
  | e :: r => if kind e then S (count kind r) else count kind r
  end.

(** A list of calls with at most [https] requests over HTTP and at most
    [sends] submissions of a transaction. *)
Definition within (https sends : nat) (calls : list Event) : Prop :=
  (count is_http calls <= https)%nat /\ (count is_send calls <= sends)%nat.

(** A computation that only adds calls to the log, within these bounds. *)
Definition adds {A} (https sends : nat) (m : Promise A) : Prop :=
  forall log, exists calls, snd (m log) = log ++ calls /\
                            within https sends calls.

End Logs.

(** ** Transaction status ([getTransactionStatus]) *)

Inductive TransactionStatus :=
| status_pending
| status_confirmed
| status_finalized
| status_failed.

Record SignatureStatus := {
  status_err : option string;
  confirmationStatus : option Commitment
}.

(** The answer of [connection.getSignatureStatus(signature)]: its
    [value], [None] for [null]. *)
Class StatusRpc `{Web3} := {
  getSignatureStatus : Connection -> string -> res (option SignatureStatus)
}.

Section Status.

Context `{StatusRpc}.

Definition getTransactionStatus (connection : Connection)
    (signature : string) : res TransactionStatus :=
  try_catch
    (let* status := getSignatureStatus connection signature in
     match status with
     | None => Ok status_pending
     | Some value =>
         match status_err value with
         | Some _ => Ok status_failed
         | None =>
             match confirmationStatus value with
             | Some finalized => Ok status_finalized
             | Some confirmed => Ok status_confirmed
             | _ => Ok status_pending
             end
         end
     end)%result
    (fun _ => Ok status_failed).

End Status.

(** ** Server module ([sdk/server.ts]) *)

(** [getRpcEndpoint]: a custom endpoint that is not the empty string
    wins. *)
Definition getRpcEndpoint (network : Network)
    (customEndpoint : option string) : string :=
  match customEndpoint with
  | Some (String c r) => String c r
  | _ =>
      match network with
      | mainnet_beta => "https://api.mainnet-beta.solana.com"
      | devnet => "https://api.devnet.solana.com"
      | testnet => "https://api.testnet.solana.com"
      end
  end.

(** *** The cache of verified payments *)

Record CacheEntry := {
  verified : bool;
  timestamp : Z
}.

(** [ttl] is in milliseconds. *)
Record PaymentCache := {
  cache : gmap string CacheEntry;
  ttl : Z
}.

(** [new PaymentCache(ttl)], the argument in seconds, 300 when absent. *)
Definition PaymentCache_new (seconds : option Z) : PaymentCache :=
  {| cache := ∅;
     ttl := match seconds with Some s => s | None => 300 end * 1000 |}.

(** [set(signature, verified)], [now] being [Date.now()]. *)
Definition PaymentCache_set (signature : string) (v : bool) (now : Z)
    (c : PaymentCache) : PaymentCache :=
  {| cache := <[signature := {| verified := v; timestamp := now |}]> (cache c);
     ttl := ttl c |}.

(** [get(signature)]: the verdict or [null], and the cache afterwards. *)
Definition PaymentCache_get (signature : string) (now : Z)
    (c : PaymentCache) : option bool * PaymentCache :=
  match cache c !! signature with
  | None => (None, c)
  | Some entry =>
      if ttl c <? now - timestamp entry
      then (None, {| cache := delete signature (cache c); ttl := ttl c |})
      else (Some (verified entry), c)
  end.

Definition PaymentCache_clear (c : PaymentCache) : PaymentCache :=
  {| cache := ∅; ttl := ttl c |}.

(** *** The server *)

Record X402ServerConfig := {
  server_network : Network;
  recipientAddress : string;
  server_rpcEndpoint : option string;
  enableCache : option bool;
  cacheTTL : option Z
}.

Record PaymentOptions := {
  option_amount : string;
  option_token : TokenType;
  option_memo : option string;
  option_deadline : option Z;
  option_requestId : option string
}.

(** [JSON.parse] of the language and [new Connection(endpoint,
    "confirmed")] of the library. *)
Class ServerRuntime `{Web3} := {
  JSON_parse : string -> res Json;
  Connection_new : string -> Connection
}.

(** [PaymentProofSchema.parse(value)] *)
Definition PaymentProofSchema_parse (value : Json) : res PaymentProof :=
  match value with
  | JObj o =>
      (let* signature_ := required_string "signature" o in
       let* network_ := NetworkSchema "network" o in
       let* requestId_ := optional_string "requestId" o in
       let* timestamp_ :=
         match field "timestamp" o with
         | Some (JNum n) => Ok n
         | _ => Throw (ZodError "timestamp")
         end in
       Ok {| proof_signature := signature_; proof_network := network_;
             proof_requestId := requestId_;
             proof_timestamp := timestamp_ |})%result
  | _ => Throw (ZodError EmptyString)
  end.

Section Server.

Context `{ServerRuntime}.

Definition createConnection (network : Network)
    (customEndpoint : option string) : Connection :=
  Connection_new (getRpcEndpoint network customEndpoint).

Record X402Server := {
  server_connection : Connection;
  server_config : X402ServerConfig;
  server_cache : option PaymentCache
}.

(** The constructor of [X402Server]. *)
Definition createX402Server (config : X402ServerConfig) : X402Server :=
  {| server_connection :=
       createConnection (server_network config) (server_rpcEndpoint config);
     server_config := config;
     server_cache :=
       match enableCache config with
       | Some true => Some (PaymentCache_new (cacheTTL config))
       | _ => None
       end |}.

(** [generateRequestId], for [now] the value of [Date.now()] and
    [random36] the text of [Math.random().toString(36)]. *)
Definition generateRequestId (now : Z) (random36 : string) : string :=
  "req_" +:+ BigInt.toString now +:+ "_" +:+ Js.slice random36 2 (Some 15).

Definition createPaymentRequirements (server : X402Server)
    (options : PaymentOptions) (now : Z) (random36 : string)
  : PaymentRequirements :=
  let decimals :=
    match option_token options with SOL => 9 | _ => 6 end in
  let parts := Js.split "." (option_amount options) in
  let whole :=
    match Js.index parts 0 with Some w => w | None => EmptyString end in
  let fraction :=
    match Js.index parts 1 with Some f => f | None => EmptyString end in
  let paddedFraction := Js.padEnd fraction decimals "0" in
  let baseUnits := whole +:+ paddedFraction in
  {| scheme := exact;
     network := server_network (server_config server);
     amount := baseUnits;
     token := option_token options;
     recipient := recipientAddress (server_config server);
     memo := option_memo options;
     deadline := option_deadline options;
     requestId :=
       Some (match option_requestId options with
             | Some (String c r) => String c r
             | _ => generateRequestId now random36
             end) |}.

(** [requirements.deadline && proof.timestamp > requirements.deadline] *)
Definition past_deadline (proof : PaymentProof)
    (requirements : PaymentRequirements) : bool :=
  match deadline requirements with
  | Some d => negb (d =? 0) && (d <? proof_timestamp proof)
  | None => false
  end.

Definition network_eqb (a b : Network) : bool :=
  match a, b with
  | mainnet_beta, mainnet_beta | devnet, devnet | testnet, testnet => true
  | _, _ => false
  end.

Definition with_cache (server : X402Server) (c : option PaymentCache)
  : X402Server :=
  {| server_connection := server_connection server;
     server_config := server_config server;
     server_cache := c |}.

(** [verifyPayment]: the verdict and the server afterwards.  [now_get] and
    [now_set] are the values of [Date.now()] inside [cache.get] and
    [cache.set]. *)
Definition verifyPayment (server : X402Server) (proof : PaymentProof)
    (requirements : PaymentRequirements) (now_get now_set : Z)
  : bool * X402Server :=
  let (cached, cache1) :=
    match server_cache server with
    | Some c =>
        let (v, c') := PaymentCache_get (proof_signature proof) now_get c in
        (v, Some c')
    | None => (None, None)
    end in
  match cached with
  | Some v => (v, with_cache server cache1)
  | None =>
      if negb (network_eqb (proof_network proof) (network requirements))
      then (false, with_cache server cache1)
      else if past_deadline proof requirements
      then (false, with_cache server cache1)
      else
        match verifyPaymentTransaction (server_connection server)
                (proof_signature proof) requirements confirmed with
        | Ok verified_ =>
            (verified_,
             with_cache server
               (option_map
                  (PaymentCache_set (proof_signature proof) verified_ now_set)
                  cache1))
        | Throw _ => (false, with_cache server cache1)
        end
  end.

(** The value of [req.headers["x-payment"]]. *)
Inductive HeaderValue :=
| HeaderText (text : string)
| HeaderList (values : list string).

Inductive ResponseBody :=
| BodyRequirements (requirements : PaymentRequirements)
| BodyFailed (error : string) (requirements : PaymentRequirements)
| BodyError (error message : string).

(** [req.payment] *)
Record PaymentInfo := {
  payment_proof : PaymentProof;
  payment_verified : bool;
  payment_amount : string;
  payment_token : TokenType
}.

(** What the middleware does with a request: it answers, or it attaches
    the payment and calls [next()]. *)
Inductive Outcome :=
| Respond (code : Z) (content : ResponseBody)
| Next (payment : PaymentInfo).

(** The readings of the clock and of the random generator during one
    request. *)
Record Readings := {
  now_id : Z;
  random36 : string;
  now_get : Z;
  now_set : Z
}.

(** The inner [try] of the middleware: the header as a proof. *)
Definition parse_proof (paymentHeader : HeaderValue) : res PaymentProof :=
  try_catch
    (let* parsed :=
       match paymentHeader with
       | HeaderText text => JSON_parse text
       | HeaderList values => Ok (JArr (map JStr values))
       end in
     PaymentProofSchema_parse parsed)%result
    (fun error =>
       Throw (InvalidPaymentProofError "Invalid payment proof format"
                                       (Some error))).

Definition requirePayment (server : X402Server) (options : PaymentOptions)
    (paymentHeader : option HeaderValue) (r : Readings)
  : Outcome * X402Server :=
  match paymentHeader with
  | None | Some (HeaderText EmptyString) =>
      (Respond 402
         (BodyRequirements
            (createPaymentRequirements server options
                                       (now_id r) (random36 r))),
       server)
  | Some header =>
      match parse_proof header with
      | Throw error =>
          (Respond 500
             (BodyError "Payment processing error" (error_message error)),
           server)
      | Ok proof =>
          let requirements :=
            createPaymentRequirements server options
                                      (now_id r) (random36 r) in
          let (verified_, server') :=
            verifyPayment server proof requirements (now_get r) (now_set r) in
          if negb verified_
          then (Respond 402
                  (BodyFailed "Payment verification failed" requirements),
                server')
          else (Next {| payment_proof := proof; payment_verified := true;
                        payment_amount := option_amount options;
                        payment_token := option_token options |},
                server')
      end
  end.

(** [x402Middleware] *)
Definition x402Middleware (config : X402ServerConfig)
    (paymentOptions : PaymentOptions)
  : option HeaderValue -> Readings -> Outcome * X402Server :=
  requirePayment (createX402Server config) paymentOptions.

End Server.

(** ** Words for the statements about the client *)

Section PaymentWords.

Context `{Runtime}.

Definition send_failed (cause : Error) : Error :=
  TransactionFailedError
    ("Failed to send transaction: " +:+ error_message cause) (Some cause).

Definition used_options (options : option SendOptions) : SendOptions :=
  match options with
  | Some o => o
  | None => default_send_options
  end.

Definition confirm_failed (cause : Error) : Error :=
  TransactionFailedError
    ("Failed to confirm transaction: " +:+ error_message cause) (Some cause).

(** The commitment [executePayment] confirms at. *)
Definition payment_commitment (client : X402Client) : Commitment :=
  match config_commitment (config client) with
  | Some c => c
  | None => confirmed
  end.

(** The submission of [executePayment]: by the key pair, or through the
    wallet. *)
Definition submit (client : X402Client) (transaction : Transaction)
    (signer : Signer) : Promise string :=
  match signer with
  | Keypair pk _ =>
      signAndSendTransaction (connection client) transaction pk None
  | WalletAdapter _ signTransaction =>
      await (call (WalletSignTransaction transaction)
                  (signTransaction transaction))
        (fun signedTx =>
           await (settled (Transaction_serialize signedTx))
             (fun wire =>
                call (RpcSendRawTransaction wire None)
                     (sendRawTransaction (connection client) wire None)))
  end.

Definition payment_failed (cause : Error) : Error :=
  TransactionFailedError
    ("Payment execution failed: " +:+ error_message cause) (Some cause).

Definition not_confirmed (c : Commitment) : Error :=
  TransactionFailedError
    ("Transaction failed to confirm at " +:+ commitment_name c +:+
     " commitment level") None.

End PaymentWords.

(** ** Samples for the server *)

Module SampleServer.

Import Sample SampleClient.
#[local] Existing Instance text_keys.

(** A node on which the payer holds a USDC account and the merchant does
    not. *)
Definition funded : Connection (H := text_keys) :=
  {| getTransaction := fun _ _ => Ok None;
     getSlot := fun _ => Ok 105;
     getAccountInfo := fun key =>
       if String.eqb key (payer +:+ "/" +:+ TOKEN_MINTS devnet USDC)
       then Ok (Some {| lamports := 2039280;
                        account_owner := tokenProgram |})
       else Ok None;
     getLatestBlockhash := Ok "blockhash1";
     sendRawTransaction := fun _ _ => Ok "sig1";
     rpc_confirmTransaction := fun _ _ => Ok None |}.

(** A node for which the transaction submitted has failed on the
    chain. *)
Definition failing : Connection (H := text_keys) :=
  {| getTransaction := fun _ _ => Ok None;
     getSlot := fun _ => Ok 105;
     getAccountInfo := fun _ => Ok None;
     getLatestBlockhash := Ok "blockhash1";
     sendRawTransaction := fun _ _ => Ok "sig1";
     rpc_confirmTransaction := fun _ _ => Ok (Some "InstructionError") |}.

#[local] Instance status_rpc : StatusRpc :=
  {| getSignatureStatus := fun _ signature =>
       if String.eqb signature "sig1"
       then Ok (Some {| status_err := None;
                        confirmationStatus := Some finalized |})
       else if String.eqb signature "sig2"
       then Ok (Some {| status_err := Some "InstructionError";
                        confirmationStatus := Some finalized |})
       else Throw (JsError "Error" "failed to get signature status") |}.

Definition proof_json : Json :=
  JObj [("signature", JStr "sig1"); ("network", JStr "devnet");
        ("requestId", JStr "req_1"); ("timestamp", JNum 1700000000000)].

(** A parser that knows the text of one proof. *)
#[local] Instance server_runtime : ServerRuntime :=
  {| JSON_parse := fun text =>
       if String.eqb text (JSON_stringify_proof proof)
       then Ok proof_json
       else Throw (JsError "SyntaxError" "Unexpected token in JSON");
     Connection_new := fun _ => paid 1000000 |}.

Definition settings : X402ServerConfig :=
  {| server_network := devnet; recipientAddress := merchant;
     server_rpcEndpoint := None; enableCache := Some true;
     cacheTTL := None |}.

Definition price (text : string) : PaymentOptions :=
  {| option_amount := text; option_token := SOL; option_memo := None;
     option_deadline := None; option_requestId := Some "req_1" |}.

Definition readings : Readings :=
  {| now_id := 1700000000000; random36 := "0.4fzyo82mvyr";
     now_get := 1700000000500; now_set := 1700000000600 |}.

Definition keypair : Signer := Keypair payer "secret".

(** A client of the node [failing]. *)
Definition failing_client : X402Client :=
  {| connection := failing; config := config (client (Some keypair)) |}.

(** A runtime whose server answers 402 with a body that is not JSON. *)
Definition broken : Runtime :=
  {| Transaction_sign := Transaction_sign (Runtime := runtime);
     Transaction_serialize := Transaction_serialize (Runtime := runtime);
     global_fetch := fun _ _ =>
       Ok {| status := 402;
             json := Throw (JsError "SyntaxError"
                              "Unexpected token < in JSON at position 0") |};
     Date_now := 1700000000000 |}.

End SampleServer.

(** * Facts about strings *)

#[local] Arguments String.append !_ _ / : simpl nomatch.

Lemma length_append (a b : string) :
  String.length (a +:+ b) = (String.length a + String.length b)%nat.
Proof. induction a as [|c a IH]; simpl; [reflexivity | now rewrite IH]. Qed.

Lemma append_empty_r (a : string) : a +:+ EmptyString = a.
Proof. induction a as [|c a IH]; simpl; [reflexivity | now rewrite IH]. Qed.

Lemma append_assoc (a b c : string) : (a +:+ b) +:+ c = a +:+ (b +:+ c).
Proof. induction a as [|x a IH]; simpl; [reflexivity | now rewrite IH]. Qed.

Lemma take_append (a b : string) : Js.take (String.length a) (a +:+ b) = a.
Proof. induction a as [|c a IH]; simpl; [now destruct b | now rewrite IH]. Qed.

Lemma drop_append (a b : string) : Js.drop (String.length a) (a +:+ b) = b.
Proof. induction a as [|c a IH]; simpl; [now destruct b | exact IH]. Qed.

Lemma take_all (a : string) : Js.take (String.length a) a = a.
Proof. induction a as [|c a IH]; simpl; [reflexivity | now rewrite IH]. Qed.

Lemma take_short (n : nat) (a : string) :
  (String.length a <= n)%nat -> Js.take n a = a.
Proof.
  revert n; induction a as [|c a IH]; intros [|n] Hn; simpl in *;
    try reflexivity; try lia.
  rewrite IH; [reflexivity | lia].
Qed.

Lemma length_zeros (n : nat) : String.length (zeros n) = n.
Proof. induction n; simpl; congruence. Qed.

Lemma fill_zeros (n : nat) :
  Js.fill n "0" EmptyString = zeros n /\ Js.fill n "0" "0" = zeros n.
Proof.
  induction n as [|n [IH1 IH2]]; simpl; [split; reflexivity|].
  rewrite IH1. split; reflexivity.
Qed.

(** [slice(0, -k)] and [slice(-k)] cut a string where its last [k]
    characters begin. *)
Lemma slice_front (a b : string) :
  b <> EmptyString ->
  Js.slice (a +:+ b) 0 (Some (- Js.len b)) = a.
Proof.
  intros Hb. unfold Js.slice, Js.clamp, Js.len.
  rewrite length_append.
  assert (0 < String.length b)%nat by (destruct b; simpl; [congruence | lia]).
  destruct (Z.ltb_spec 0 0); [lia|].
  destruct (Z.ltb_spec (- Z.of_nat (String.length b)) 0); [|lia].
  replace (Z.max _ 0) with (Z.of_nat (String.length a)) by lia.
  destruct (Z.ltb_spec (Z.min 0 (Z.of_nat (String.length a + String.length b)))
                       (Z.of_nat (String.length a))) as [Hlt|Hge].
  - replace (Z.min 0 _) with 0 in * by lia.
    rewrite Z.sub_0_r, Nat2Z.id. simpl. apply take_append.
  - destruct a; [reflexivity | simpl in Hge; lia].
Qed.

Lemma slice_back (a b : string) :
  b <> EmptyString ->
  Js.slice (a +:+ b) (- Js.len b) None = b.
Proof.
  intros Hb. unfold Js.slice, Js.clamp, Js.len.
  rewrite length_append.
  assert (0 < String.length b)%nat by (destruct b; simpl; [congruence | lia]).
  destruct (Z.ltb_spec (- Z.of_nat (String.length b)) 0); [|lia].
  replace (Z.max _ 0) with (Z.of_nat (String.length a)) by lia.
  destruct (Z.ltb_spec (Z.of_nat (String.length a))
                       (Z.of_nat (String.length a + String.length b))); [|lia].
  rewrite Nat2Z.id, drop_append.
  replace (Z.to_nat _) with (String.length b) by lia.
  apply take_all.
Qed.

Lemma slice_whole (a : string) (n : Z) :
  Js.len a = n -> Js.slice a 0 (Some n) = a.
Proof.
  intros <-. unfold Js.slice, Js.clamp, Js.len.
  destruct (Z.ltb_spec 0 0); [lia|].
  destruct (Z.ltb_spec (Z.of_nat (String.length a)) 0); [lia|].
  rewrite !Z.min_id.
  destruct (Z.ltb_spec (Z.min 0 (Z.of_nat (String.length a)))
                       (Z.of_nat (String.length a))) as [Hlt|Hge].
  - replace (Z.min 0 _) with 0 by lia.
    rewrite Z.sub_0_r, Nat2Z.id. simpl. apply take_all.
  - destruct a; [reflexivity | simpl in Hge; lia].
Qed.

(** Cutting at a length the string exceeds keeps its first characters. *)
Lemma slice_cut (a : string) (n : nat) :
  Js.slice a 0 (Some (Z.of_nat n)) = Js.take n a.
Proof.
  unfold Js.slice, Js.clamp, Js.len.
  destruct (Z.ltb_spec 0 0); [lia|].
  destruct (Z.ltb_spec (Z.of_nat n) 0); [lia|].
  replace (Z.min 0 _) with 0 by lia.
  destruct (Z.ltb_spec 0 (Z.min (Z.of_nat n) (Z.of_nat (String.length a))))
    as [Hlt|Hge].
  - rewrite Z.sub_0_r. simpl Js.drop.
    destruct (Nat.le_ge_cases n (String.length a)).
    + now replace (Z.to_nat _) with n by lia.
    + replace (Z.to_nat _) with (String.length a) by lia.
      rewrite take_all. symmetry. now apply take_short.
  - destruct n; [now destruct a|]. destruct a; [reflexivity | simpl in Hge; lia].
Qed.

Lemma padEnd_zeros (f : string) (n : nat) :
  (String.length f <= n)%nat ->
  Js.padEnd f (Z.of_nat n) "0" = f +:+ zeros (n - String.length f).
Proof.
  intros Hn. unfold Js.padEnd, Js.len.
  destruct (Z.leb_spec (Z.of_nat n) (Z.of_nat (String.length f))).
  - replace (n - String.length f)%nat with 0%nat by lia.
    simpl. now rewrite append_empty_r.
  - replace (Z.to_nat _) with (n - String.length f)%nat by lia.
    now rewrite (proj2 (fill_zeros _)).
Qed.

Lemma padEnd_long (f : string) (n : Z) :
  n <= Js.len f -> Js.padEnd f n "0" = f.
Proof.
  intros Hn. unfold Js.padEnd. now destruct (Z.leb_spec n (Js.len f)); [|lia].
Qed.

(** * Runs of digits *)

Lemma is_digit_inv (c : ascii) :
  is_digit c = true ->
  (c = "0" \/ c = "1" \/ c = "2" \/ c = "3" \/ c = "4" \/
   c = "5" \/ c = "6" \/ c = "7" \/ c = "8" \/ c = "9")%char.
Proof.
  destruct c as [[] [] [] [] [] [] [] []]; simpl; intros Hc;
    try discriminate Hc; tauto.
Qed.

Ltac digit_cases c H :=
  destruct (is_digit_inv c H)
    as [-> | [-> | [-> | [-> | [-> | [-> | [-> | [-> | [-> | ->]]]]]]]]].

Ltac eval_char :=
  repeat match goal with
    | |- context [Z.of_nat (nat_of_ascii ?c)] =>
        let v := eval vm_compute in (Z.of_nat (nat_of_ascii c)) in
        change (Z.of_nat (nat_of_ascii c)) with v
    end.

Lemma digits_of_uint (u : uint) : all_digits (su u) = true.
Proof. induction u; simpl; auto. Qed.

(** Every run of digits is the text of a [uint]. *)
Lemma uint_of_digits (s : string) :
  all_digits s = true -> exists u, su u = s.
Proof.
  induction s as [|c s IH]; simpl; intros Hs.
  - now exists Nil.
  - apply andb_prop in Hs as [Hc Hs]. destruct (IH Hs) as [u <-].
    digit_cases c Hc;
      [exists (D0 u) | exists (D1 u) | exists (D2 u) | exists (D3 u)
      | exists (D4 u) | exists (D5 u) | exists (D6 u) | exists (D7 u)
      | exists (D8 u) | exists (D9 u)]; reflexivity.
Qed.

Lemma length_su (u : uint) : String.length (su u) = nb_digits u.
Proof. induction u; simpl; congruence. Qed.

Lemma su_nil (u : uint) : su u = EmptyString -> u = Nil.
Proof. destruct u; simpl; congruence. Qed.

Lemma digits_acc_pos (u : uint) (acc : positive) :
  digits_acc (Z.pos acc) (su u) = Z.pos (Pos.of_uint_acc u acc).
Proof.
  revert acc; induction u; intros acc; simpl; try reflexivity;
    rewrite <- IHu; f_equal; eval_char; lia.
Qed.

Lemma digits_value_su (u : uint) : digits_value (su u) = Z.of_uint u.
Proof.
  unfold digits_value, Z.of_uint.
  induction u; simpl; try reflexivity; try exact IHu;
    rewrite <- digits_acc_pos; f_equal.
Qed.

(** *** [BigInt] on a run of digits *)

Lemma trim_start_digits (s : string) :
  all_digits s = true -> BigInt.trim_start s = s.
Proof.
  destruct s as [|c s]; simpl; [reflexivity|]. intros Hs.
  apply andb_prop in Hs as [Hc _]. digit_cases c Hc; reflexivity.
Qed.

Lemma trim_end_digits (s : string) :
  all_digits s = true -> BigInt.trim_end s = s.
Proof.
  induction s as [|c s IH]; simpl; [reflexivity|]. intros Hs.
  apply andb_prop in Hs as [Hc Hs]. rewrite (IH Hs).
  destruct s; [digit_cases c Hc|]; reflexivity.
Qed.

Lemma decimal_digits_su (u : uint) :
  u <> Nil -> BigInt.decimal_digits (su u) = Some (Z.of_uint u).
Proof.
  intros Hu. unfold BigInt.decimal_digits, NilZero.uint_of_string.
  destruct (su u) eqn:E; [now apply su_nil in E|].
  rewrite <- E. now rewrite NilEmpty.usu.
Qed.

Lemma parse_su (u : uint) :
  u <> Nil -> BigInt.parse (su u) = Some (Z.of_uint u).
Proof.
  intros Hu. unfold BigInt.parse, BigInt.trim.
  rewrite trim_start_digits, trim_end_digits by apply digits_of_uint.
  rewrite <- (decimal_digits_su u Hu).
  destruct u as [|u|u|u|u|u|u|u|u|u|u]; try congruence; try reflexivity.
  destruct u; reflexivity.
Qed.

Lemma BigInt_digits (s : string) :
  all_digits s = true -> s <> EmptyString ->
  BigInt s = Ok (digits_value s).
Proof.
  intros Hs Hne. destruct (uint_of_digits s Hs) as [u <-].
  unfold BigInt. rewrite parse_su, digits_value_su; [reflexivity|].
  intros ->. now apply Hne.
Qed.

(** *** [toString] after [BigInt] *)

Lemma toString_of_uint (u : uint) :
  BigInt.toString (Z.of_uint u) = su (unorm u).
Proof.
  unfold BigInt.toString.
  change (Z.of_uint u) with (Z.of_int (Pos u)).
  rewrite DecimalZ.to_of. simpl.
  unfold NilZero.string_of_uint.
  destruct (unorm u) eqn:E; try reflexivity.
  now apply unorm_nonnil in E.
Qed.

(** Normalising a [uint] removes zeros at its head, and only those. *)
Lemma su_unorm (u : uint) :
  u <> Nil -> exists k, su u = zeros k +:+ su (unorm u).
Proof.
  induction u; intros Hu; try (now exists 0%nat).
  rewrite unorm_D0. destruct u as [| | | | | | | | | |];
    try (now exists 1%nat).
  - now exists 0%nat.
  - destruct IHu as [k Hk]; [congruence|].
    exists (S k). simpl. simpl in Hk. now rewrite Hk.
Qed.

Lemma padStart_unorm (u : uint) :
  u <> Nil ->
  Js.padStart (su (unorm u)) (Z.of_nat (nb_digits u)) "0" = su u.
Proof.
  intros Hu. destruct (su_unorm u Hu) as [k Hk].
  assert (Hlen : nb_digits u = (k + String.length (su (unorm u)))%nat).
  { now rewrite <- length_su, Hk, length_append, length_zeros. }
  unfold Js.padStart, Js.len. rewrite Hlen.
  destruct (Z.leb_spec (Z.of_nat (k + String.length (su (unorm u))))
                       (Z.of_nat (String.length (su (unorm u))))).
  - assert (k = 0%nat) as -> by lia. now rewrite Hk.
  - replace (Z.to_nat _) with k by lia.
    now rewrite (proj2 (fill_zeros k)), Hk.
Qed.

(** * The amount codec *)

Lemma digits_append (a b : string) :
  all_digits (a +:+ b) = all_digits a && all_digits b.
Proof.
  induction a as [|c a IH]; simpl; [reflexivity|].
  now rewrite IH, andb_assoc.
Qed.

Lemma digits_zeros (n : nat) : all_digits (zeros n) = true.
Proof. induction n; simpl; auto. Qed.

Lemma digits_take (n : nat) (s : string) :
  all_digits s = true -> all_digits (Js.take n s) = true.
Proof.
  revert n; induction s as [|c s IH]; intros [|n]; simpl; auto.
  intros Hs. apply andb_prop in Hs as [-> Hs]. simpl. auto.
Qed.

Lemma length_take (n : nat) (s : string) :
  String.length (Js.take n s) = Nat.min n (String.length s).
Proof.
  revert n; induction s as [|c s IH]; intros [|n]; simpl; auto.
Qed.

Lemma take_drop (n : nat) (s : string) : Js.take n s +:+ Js.drop n s = s.
Proof.
  revert n; induction s as [|c s IH]; intros [|n]; simpl; auto.
  now rewrite IH.
Qed.

Lemma length_drop (n : nat) (s : string) :
  String.length (Js.drop n s) = (String.length s - n)%nat.
Proof.
  revert n; induction s as [|c s IH]; intros [|n]; simpl; auto.
Qed.

Lemma digits_drop (n : nat) (s : string) :
  all_digits s = true -> all_digits (Js.drop n s) = true.
Proof.
  revert n; induction s as [|c s IH]; intros [|n]; simpl; auto.
  intros Hs. apply andb_prop in Hs as [_ Hs]. auto.
Qed.

(** *** Splitting at the point *)

Lemma split_digits (s : string) :
  all_digits s = true -> Js.split "." s = [s].
Proof.
  induction s as [|c s IH]; simpl; [reflexivity|]. intros Hs.
  apply andb_prop in Hs as [Hc Hs]. rewrite (IH Hs).
  digit_cases c Hc; reflexivity.
Qed.

Lemma split_split_point (d : string) :
  Js.split "." d =
    match split_point d with
    | (w, None) => [w]
    | (w, Some r) => w :: Js.split "." r
    end.
Proof.
  induction d as [|c d IH]; simpl; [reflexivity|].
  destruct (Ascii.eqb c "."); [reflexivity|].
  rewrite IH. destruct (split_point d) as [w [r|]]; reflexivity.
Qed.

Lemma split_point_whole (w r : string) :
  all_digits w = true -> split_point (w +:+ String "." r) = (w, Some r).
Proof.
  induction w as [|c w IH]; simpl; [reflexivity|]. intros Hw.
  apply andb_prop in Hw as [Hc Hw]. rewrite (IH Hw).
  digit_cases c Hc; reflexivity.
Qed.

(** *** The value of a run of digits *)

Lemma digits_acc_append (acc : Z) (a b : string) :
  digits_acc acc (a +:+ b) = digits_acc (digits_acc acc a) b.
Proof. revert acc; induction a as [|c a IH]; intros acc; simpl; auto. Qed.

Lemma digits_acc_shift (acc : Z) (s : string) :
  digits_acc acc s = acc * 10 ^ Js.len s + digits_value s.
Proof.
  unfold digits_value, Js.len. revert acc.
  induction s as [|c s IH]; intros acc.
  - simpl. lia.
  - cbn [digits_acc String.length]. rewrite IH, (IH (10 * 0 + _)).
    rewrite Nat2Z.inj_succ, Z.pow_succ_r by lia. ring.
Qed.

Lemma digits_value_append (a b : string) :
  digits_value (a +:+ b) = digits_value a * 10 ^ Js.len b + digits_value b.
Proof.
  unfold digits_value at 1. now rewrite digits_acc_append, digits_acc_shift.
Qed.

Lemma digits_value_zeros (n : nat) : digits_value (zeros n) = 0.
Proof.
  unfold digits_value. induction n as [|n IH]; [reflexivity|].
  cbn [zeros digits_acc]. exact IH.
Qed.

Lemma digits_value_bound (s : string) :
  all_digits s = true -> 0 <= digits_value s < 10 ^ Js.len s.
Proof.
  induction s as [|c s IH]; [simpl; unfold digits_value, Js.len; simpl; lia|].
  intros Hs. cbn [all_digits] in Hs. apply andb_prop in Hs as [Hc Hs].
  specialize (IH Hs).
  change (String c s) with (String c EmptyString +:+ s).
  rewrite digits_value_append.
  assert (Hl : Js.len (String c EmptyString +:+ s) = Js.len s + 1)
    by (unfold Js.len; simpl; lia).
  rewrite Hl, Z.pow_add_r, Z.pow_1_r by (unfold Js.len; lia).
  assert (0 <= digits_value (String c EmptyString) <= 9)
    by (digit_cases c Hc; vm_compute; split; congruence).
  nia.
Qed.

(** The first [n] digits of a run denote its value divided by the weight
    of the digits left out. *)
Lemma digits_value_take (n : nat) (s : string) :
  all_digits s = true ->
  digits_value (Js.take n s) =
    digits_value s / 10 ^ Js.len (Js.drop n s).
Proof.
  intros Hs. rewrite <- (take_drop n s) at 2.
  rewrite digits_value_append.
  pose proof (digits_value_bound _ (digits_drop n s Hs)) as Hb.
  rewrite Z.div_add_l by lia.
  rewrite (Z.div_small (digits_value _)) by lia. lia.
Qed.

(** *** Encoding *)

(** The fractional digits [amountToBaseUnits] keeps: the fraction padded to
    the precision, cut at the precision. *)
Lemma fraction_kept (f : string) (n : nat) :
  Js.slice (Js.padEnd f (Z.of_nat n) "0") 0 (Some (Z.of_nat n)) =
    Js.take n (f +:+ zeros (n - String.length f)).
Proof.
  destruct (Nat.le_gt_cases (String.length f) n) as [Hle|Hgt].
  - rewrite padEnd_zeros by assumption. apply slice_cut.
  - rewrite padEnd_long by (unfold Js.len; lia).
    replace (n - String.length f)%nat with 0%nat by lia.
    simpl zeros. rewrite append_empty_r. apply slice_cut.
Qed.

Lemma decimals_nat_eq (token : TokenType) :
  TOKEN_DECIMALS token = Z.of_nat (decimals_nat token).
Proof. now destruct token. Qed.

Lemma decimals_nat_pos (token : TokenType) : (0 < decimals_nat token)%nat.
Proof. destruct token; vm_compute; lia. Qed.

Lemma whole_digits_inv (w : string) :
  whole_digits w = true -> all_digits w = true /\ w <> EmptyString.
Proof. destruct w; simpl; [discriminate|]. intros ->. now split. Qed.

Lemma or_else_nonempty (w d : string) :
  w <> EmptyString -> Js.or_else (Some w) d = w.
Proof. destruct w; [congruence | reflexivity]. Qed.

(** [amountToBaseUnits] on a whole part and an optional fraction. *)
Lemma amountToBaseUnits_parts (token : TokenType) (d w : string)
    (fo : option string) :
  Js.split "." d = w :: match fo with Some f => [f] | None => [] end ->
  whole_digits w = true ->
  match fo with Some f => all_digits f = true | None => True end ->
  let f := match fo with Some f => f | None => EmptyString end in
  let kept :=
    Js.take (decimals_nat token)
            (f +:+ zeros (decimals_nat token - String.length f)) in
  amountToBaseUnits d token = Ok (digits_value (w +:+ kept)).
Proof.
  intros Hsplit Hw Hf f kept. apply whole_digits_inv in Hw as [Hw Hne].
  unfold amountToBaseUnits. rewrite Hsplit.
  replace (Js.or_else (Js.index _ 0) "0") with w
    by (symmetry; now apply or_else_nonempty).
  replace (Js.or_else (Js.index _ 1) EmptyString) with f
    by (subst f; destruct fo as [[|c f']|]; reflexivity).
  rewrite decimals_nat_eq, fraction_kept. fold kept.
  apply BigInt_digits.
  - rewrite digits_append, Hw. simpl. subst kept. apply digits_take.
    rewrite digits_append, digits_zeros, andb_true_r.
    subst f. destruct fo; [assumption | reflexivity].
  - destruct w; [congruence | discriminate].
Qed.

Lemma split_whole_fraction (w f : string) :
  all_digits w = true -> all_digits f = true ->
  Js.split "." (w +:+ "." +:+ f) = [w; f].
Proof.
  intros Hw Hf. rewrite split_split_point.
  change (w +:+ "." +:+ f) with (w +:+ String "." f).
  now rewrite split_point_whole, split_digits.
Qed.

(** The value of the fractional digits kept, as a quotient. *)
Lemma kept_value (n : nat) (f : string) :
  all_digits f = true ->
  let kept := Js.take n (f +:+ zeros (n - String.length f)) in
  Js.len kept = Z.of_nat n /\
  digits_value kept = digits_value f * 10 ^ Z.of_nat n / 10 ^ Js.len f.
Proof.
  intros Hf kept. subst kept. split.
  - unfold Js.len. rewrite length_take, length_append, length_zeros. lia.
  - rewrite digits_value_take
      by (now rewrite digits_append, Hf, digits_zeros).
    rewrite digits_value_append, digits_value_zeros, Z.add_0_r.
    unfold Js.len. rewrite length_drop, length_append, !length_zeros.
    set (F := digits_value f). set (l := String.length f).
    destruct (Nat.le_gt_cases l n) as [Hle|Hgt].
    + replace (l + (n - l) - n)%nat with 0%nat by lia.
      rewrite Z.pow_0_r, Z.div_1_r.
      replace (Z.of_nat n) with (Z.of_nat (n - l) + Z.of_nat l) by lia.
      rewrite Z.pow_add_r, Z.mul_assoc by lia.
      rewrite Z.div_mul; [reflexivity|].
      apply Z.pow_nonzero; lia.
    + replace (n - l)%nat with 0%nat by lia.
      rewrite Z.pow_0_r, Z.mul_1_r.
      replace (l + 0 - n)%nat with (l - n)%nat by lia.
      replace (Z.of_nat l) with (Z.of_nat (l - n) + Z.of_nat n) by lia.
      rewrite Z.pow_add_r by lia.
      rewrite Z.div_mul_cancel_r; [reflexivity | |];
        apply Z.pow_nonzero; lia.
Qed.

(** The base units of a whole part and a fraction: the amount times
    [10 ^ decimals], rounded down. *)
Lemma amountToBaseUnits_value (token : TokenType) (w f : string) :
  whole_digits w = true -> all_digits f = true ->
  amountToBaseUnits (w +:+ "." +:+ f) token =
    Ok (digits_value w * 10 ^ TOKEN_DECIMALS token +
        digits_value f * 10 ^ TOKEN_DECIMALS token / 10 ^ Js.len f).
Proof.
  intros Hw Hf.
  pose proof (whole_digits_inv w Hw) as [Hwd _].
  rewrite (amountToBaseUnits_parts token _ w (Some f));
    [| now apply split_whole_fraction | assumption | assumption].
  destruct (kept_value (decimals_nat token) f Hf) as [Hlen Hval].
  rewrite digits_value_append, Hlen, Hval, <- decimals_nat_eq.
  reflexivity.
Qed.

(** *** Decoding *)

Lemma unorm_head (u : uint) (c : ascii) (r : string) :
  su u = String c r -> c <> "0"%char -> unorm u = u.
Proof.
  destruct u; simpl; intros E Hc; try reflexivity; congruence.
Qed.

(** The digits [baseUnitsToAmount] works on are those that were read. *)
Lemma padStart_toString (w frac : string) :
  whole_canonical w = true -> all_digits frac = true ->
  Js.padStart (BigInt.toString (digits_value (w +:+ frac)))
              (Js.len frac + 1) "0" = w +:+ frac.
Proof.
  intros Hw Hfrac.
  assert (Hd : all_digits (w +:+ frac) = true).
  { rewrite digits_append, Hfrac, andb_true_r.
    destruct w as [|c w]; [discriminate|]. simpl in Hw.
    destruct (Ascii.eqb_spec c "0") as [->|Hc].
    - destruct w; [reflexivity | discriminate].
    - destruct c as [[] [] [] [] [] [] [] []]; try exact Hw; congruence. }
  destruct (uint_of_digits _ Hd) as [u Hu].
  rewrite <- Hu, digits_value_su, toString_of_uint.
  destruct w as [|c w]; [discriminate|].
  destruct (Ascii.eqb_spec c "0") as [->|Hc].
  - assert (w = EmptyString) as -> by (destruct w; [reflexivity | discriminate]).
    replace (Js.len frac + 1) with (Z.of_nat (nb_digits u)).
    + apply padStart_unorm. intros ->. discriminate.
    + rewrite <- length_su, Hu. unfold Js.len. simpl. lia.
  - rewrite (unorm_head u c (w +:+ frac)) by assumption.
    unfold Js.padStart, Js.len. rewrite Hu. simpl String.length.
    rewrite length_append.
    destruct (Z.leb_spec (Z.of_nat (String.length frac) + 1)
                (Z.of_nat (S (String.length w + String.length frac))));
      [reflexivity | lia].
Qed.

Lemma whole_canonical_digits (w : string) :
  whole_canonical w = true -> whole_digits w = true.
Proof.
  destruct w as [|c w]; [discriminate|]. simpl.
  destruct c as [[] [] [] [] [] [] [] []]; try (intros H; exact H);
    destruct w; (reflexivity || discriminate).
Qed.

(** *** Cutting the zeros at the end *)

Lemma zeros1_whole (w x : string) :
  zeros1 (w +:+ String "." x) = false.
Proof.
  induction w as [|c w IH]; simpl; [reflexivity|].
  rewrite IH.
  destruct c as [[] [] [] [] [] [] [] []]; try reflexivity.
  destruct w; reflexivity.
Qed.

Lemma strip_whole (w x : string) :
  all_digits w = true ->
  strip_zero_tail (w +:+ String "." x) =
    w +:+ (if zeros1 x then EmptyString
           else String "." (strip_zero_tail x)).
Proof.
  induction w as [|c w IH]; intros Hw.
  - simpl. destruct (zeros1 x); [reflexivity|].
    now destruct x.
  - cbn [all_digits] in Hw. apply andb_prop in Hw as [Hc Hw].
    cbn [String.append strip_zero_tail].
    assert (tail_matches (String c (w +:+ String "." x)) = false) as ->.
    { pose proof (zeros1_whole (String c w) x) as Hz.
      digit_cases c Hc; exact Hz. }
    now rewrite IH.
Qed.

Lemma drop_trailing_zeros_empty (s : string) :
  zeros1 s = true -> drop_trailing_zeros s = EmptyString.
Proof.
  induction s as [|c s IH]; [discriminate|]. intros Hz.
  destruct c as [[] [] [] [] [] [] [] []]; try discriminate Hz.
  destruct s as [|c' s]; [reflexivity|].
  cbn [drop_trailing_zeros]. cbn [drop_trailing_zeros] in IH.
  now rewrite IH.
Qed.

Lemma zeros1_of_drop (s : string) :
  s <> EmptyString -> drop_trailing_zeros s = EmptyString -> zeros1 s = true.
Proof.
  induction s as [|c s IH]; [congruence|]. intros _ Hd.
  cbn [drop_trailing_zeros] in Hd.
  destruct (drop_trailing_zeros s) eqn:E; [|discriminate].
  destruct (Ascii.eqb_spec c "0") as [->|]; [|discriminate].
  destruct s as [|c' s]; [reflexivity|].
  change (zeros1 (String c' s) = true). apply IH; [congruence | reflexivity].
Qed.

Lemma strip_digits (s : string) :
  all_digits s = true -> strip_zero_tail s = drop_trailing_zeros s.
Proof.
  induction s as [|c s IH]; [reflexivity|]. intros Hs.
  cbn [all_digits] in Hs. apply andb_prop in Hs as [Hc Hs].
  cbn [strip_zero_tail].
  assert (tail_matches (String c s) = zeros1 (String c s)) as ->
    by (digit_cases c Hc; reflexivity).
  destruct (zeros1 (String c s)) eqn:Hz.
  - symmetry. now apply drop_trailing_zeros_empty.
  - rewrite (IH Hs). cbn [drop_trailing_zeros].
    destruct (drop_trailing_zeros s) eqn:E; [|reflexivity].
    destruct (Ascii.eqb_spec c "0") as [->|]; [|reflexivity].
    destruct s as [|c' s]; [discriminate Hz|].
    assert (zeros1 (String c' s) = true)
      by (apply zeros1_of_drop; [congruence | assumption]).
    change (zeros1 (String c' s) = false) in Hz. congruence.
Qed.

Lemma drop_trailing_zeros_zeros (n : nat) :
  drop_trailing_zeros (zeros n) = EmptyString.
Proof. induction n as [|n IH]; simpl; [reflexivity | now rewrite IH]. Qed.

Lemma drop_trailing_zeros_padded (f : string) (n : nat) :
  drop_trailing_zeros (f +:+ zeros n) = drop_trailing_zeros f.
Proof.
  induction f as [|c f IH]; simpl.
  - apply drop_trailing_zeros_zeros.
  - now rewrite IH.
Qed.

(** What is printed for a whole part and a padded fraction. *)
Lemma strip_padded (w f : string) (n : nat) :
  all_digits w = true -> all_digits f = true ->
  f +:+ zeros n <> EmptyString ->
  strip_zero_tail (w +:+ "." +:+ f +:+ zeros n) =
    match drop_trailing_zeros f with
    | EmptyString => w
    | f' => w +:+ "." +:+ f'
    end.
Proof.
  intros Hw Hf Hne.
  change (w +:+ "." +:+ f +:+ zeros n)
    with (w +:+ String "." (f +:+ zeros n)).
  rewrite strip_whole by assumption.
  rewrite strip_digits by (now rewrite digits_append, Hf, digits_zeros).
  rewrite drop_trailing_zeros_padded.
  destruct (zeros1 (f +:+ zeros n)) eqn:Hz.
  - apply drop_trailing_zeros_empty in Hz.
    rewrite drop_trailing_zeros_padded in Hz. rewrite Hz.
    apply append_empty_r.
  - destruct (drop_trailing_zeros f) eqn:E; [|reflexivity].
    rewrite zeros1_of_drop in Hz; [discriminate | assumption |].
    now rewrite drop_trailing_zeros_padded.
Qed.

Lemma baseUnitsToAmount_digits (token : TokenType) (w f : string) :
  whole_canonical w = true -> all_digits f = true ->
  Js.len f <= TOKEN_DECIMALS token ->
  let frac := f +:+ zeros (decimals_nat token - String.length f) in
  baseUnitsToAmount (digits_value (w +:+ frac)) token =
    match drop_trailing_zeros f with
    | EmptyString => w
    | f' => w +:+ "." +:+ f'
    end.
Proof.
  intros Hw Hf Hlen frac.
  pose proof (whole_digits_inv w (whole_canonical_digits w Hw)) as [Hwd Hwne].
  assert (Hfl : Js.len frac = TOKEN_DECIMALS token).
  { subst frac. unfold Js.len in *. rewrite length_append, length_zeros.
    rewrite decimals_nat_eq in *. lia. }
  assert (Hfd : all_digits frac = true)
    by (subst frac; now rewrite digits_append, Hf, digits_zeros).
  assert (Hfne : frac <> EmptyString).
  { intros E. rewrite E in Hfl. pose proof (decimals_nat_pos token).
    rewrite decimals_nat_eq in Hfl. unfold Js.len in Hfl. simpl in Hfl. lia. }
  unfold baseUnitsToAmount. rewrite <- Hfl.
  rewrite padStart_toString by assumption.
  rewrite slice_front, slice_back by assumption.
  rewrite or_else_nonempty by assumption.
  subst frac. now apply strip_padded.
Qed.

(** *** The codec on a few amounts *)

Example amountToBaseUnits_sol : amountToBaseUnits "0.001" SOL = Ok 1000000.
Proof. reflexivity. Qed.

Example amountToBaseUnits_usdc : amountToBaseUnits "1.50" USDC = Ok 1500000.
Proof. reflexivity. Qed.

Example amountToBaseUnits_no_point : amountToBaseUnits "25" USDT = Ok 25000000.
Proof. reflexivity. Qed.

Example amountToBaseUnits_not_a_number :
  amountToBaseUnits "abc" SOL =
    Throw (JsError "SyntaxError" "Cannot convert abc000000000 to a BigInt").
Proof. reflexivity. Qed.

Example baseUnitsToAmount_sol : baseUnitsToAmount 1000000 SOL = "0.001".
Proof. reflexivity. Qed.

Example baseUnitsToAmount_whole : baseUnitsToAmount 100000000000 SOL = "100".
Proof. reflexivity. Qed.

Example baseUnitsToAmount_zero : baseUnitsToAmount 0 USDC = "0".
Proof. reflexivity. Qed.

(** Leading zeros of the whole part do not survive the round trip. *)
Example round_trip_leading_zeros :
  amountToBaseUnits "007.5" SOL = Ok 7500000000 /\
  baseUnitsToAmount 7500000000 SOL = "7.5".
Proof. split; reflexivity. Qed.

(** C7.  Amount codec round trip: a valid decimal amount within the
    precision of the asset, converted to base units and back, comes out in
    canonical form (the fractional part without trailing zeros, and no
    point when nothing is left of it). *)
Theorem codec_round_trip (token : TokenType) (d : string) :
  valid_amount token d = true ->
  exists baseUnits,
    amountToBaseUnits d token = Ok baseUnits /\
    baseUnitsToAmount baseUnits token = canonical d.
Proof.
  unfold valid_amount, canonical. intros Hv.
  pose proof (split_split_point d) as Hsplit.
  destruct (split_point d) as [w [f|]].
  - apply andb_prop in Hv as [Hw Hv]. apply andb_prop in Hv as [Hf Hlen].
    apply Z.leb_le in Hlen.
    rewrite (split_digits f Hf) in Hsplit.
    eexists. split.
    + apply (amountToBaseUnits_parts token d w (Some f));
        [assumption | now apply whole_canonical_digits | assumption].
    + rewrite take_short.
      * now apply baseUnitsToAmount_digits.
      * rewrite length_append, length_zeros. unfold Js.len in Hlen.
        rewrite decimals_nat_eq in Hlen. lia.
  - rewrite andb_true_r in Hv.
    eexists. split.
    + apply (amountToBaseUnits_parts token d w None);
        [assumption | now apply whole_canonical_digits | exact I].
    + rewrite take_short by (rewrite length_append, length_zeros; simpl; lia).
      apply (baseUnitsToAmount_digits token w EmptyString);
        [assumption | reflexivity |].
      destruct token; vm_compute; discriminate.
Qed.

Lemma codec_round_trip_witness :
  valid_amount SOL "1.50" = true /\
  exists baseUnits,
    amountToBaseUnits "1.50" SOL = Ok baseUnits /\
    baseUnitsToAmount baseUnits SOL = canonical "1.50".
Proof.
  split; [reflexivity | apply (codec_round_trip SOL "1.50"); reflexivity].
Defined.

(** C8 as the specification has it does not hold: a fraction of ten digits
    for an asset of nine is accepted, and its last digit is lost. *)
Lemma amountToBaseUnits_accepts_long_fraction :
  TOKEN_DECIMALS SOL < Js.len "0000000019" /\
  amountToBaseUnits "0.0000000019" SOL = Ok 1.
Proof. split; reflexivity. Qed.

(** C8, amended.  The codec never fails on a decimal amount for the length
    of its fractional part: the result is the amount times
    [10 ^ decimals], rounded down.  A fraction longer than the precision
    loses its digits beyond the precision; a fraction within the precision
    is padded with zeros, and the result is exact. *)
Theorem amountToBaseUnits_truncates (token : TokenType) (w f : string) :
  whole_digits w = true -> all_digits f = true ->
  amountToBaseUnits (w +:+ "." +:+ f) token =
    Ok (digits_value w * 10 ^ TOKEN_DECIMALS token +
        digits_value f * 10 ^ TOKEN_DECIMALS token / 10 ^ Js.len f) /\
  (TOKEN_DECIMALS token < Js.len f ->
   amountToBaseUnits (w +:+ "." +:+ f) token =
     amountToBaseUnits
       (w +:+ "." +:+ Js.take (Z.to_nat (TOKEN_DECIMALS token)) f) token) /\
  (Js.len f <= TOKEN_DECIMALS token ->
   amountToBaseUnits (w +:+ "." +:+ f) token =
     Ok (digits_value w * 10 ^ TOKEN_DECIMALS token +
         digits_value f * 10 ^ (TOKEN_DECIMALS token - Js.len f))).
Proof.
  intros Hw Hf. split; [now apply amountToBaseUnits_value|]. split.
  - intros Hlong.
    rewrite !amountToBaseUnits_value
      by (try assumption; now apply digits_take).
    do 2 f_equal.
    fold (decimals_nat token).
    pose proof (decimals_nat_eq token) as Hdec.
    rewrite (digits_value_take (decimals_nat token) f Hf).
    unfold Js.len in *. rewrite length_take, length_drop.
    replace (Nat.min (decimals_nat token) (String.length f))
      with (decimals_nat token) by lia.
    rewrite Hdec, Z.div_mul by (apply Z.pow_nonzero; lia).
    replace (Z.of_nat (String.length f))
      with (Z.of_nat (String.length f - decimals_nat token) +
            Z.of_nat (decimals_nat token)) at 1 by lia.
    rewrite Z.pow_add_r by lia.
    rewrite Z.div_mul_cancel_r; [reflexivity | |]; apply Z.pow_nonzero; lia.
  - intros Hshort. rewrite amountToBaseUnits_value by assumption.
    do 2 f_equal.
    pose proof (decimals_nat_eq token) as Hdec. unfold Js.len in *.
    replace (TOKEN_DECIMALS token)
      with (TOKEN_DECIMALS token - Z.of_nat (String.length f) +
            Z.of_nat (String.length f)) at 1 by lia.
    rewrite Z.pow_add_r, Z.mul_assoc by lia.
    apply Z.div_mul. apply Z.pow_nonzero; lia.
Qed.

Lemma amountToBaseUnits_truncates_witness :
  whole_digits "0" = true /\ all_digits "0000000019" = true /\
  amountToBaseUnits ("0" +:+ "." +:+ "0000000019") SOL = Ok 1.
Proof.
  split; [reflexivity|]. split; [reflexivity|].
  exact (proj1 (amountToBaseUnits_truncates SOL "0" "0000000019"
                  eq_refl eq_refl)).
Defined.

(** * The payment verifier *)

Section Verifier.

Context `{Web3}.

Lemma verify_never_throws connection signature requirements commitment :
  exists verdict,
    verifyPaymentTransaction connection signature requirements commitment
    = Ok verdict.
Proof.
  unfold verifyPaymentTransaction, try_catch.
  destruct (verify_body _ _ _ _); eauto.
Qed.

Lemma too_young_deep connection commitment tx :
  deep_enough connection commitment tx ->
  too_young connection commitment tx = Ok false.
Proof.
  unfold deep_enough, too_young. intros Hdeep.
  destruct commitment; simpl; try reflexivity.
  destruct (Z.eqb_spec (slot tx) 0); simpl; [reflexivity|].
  destruct Hdeep as (cur & -> & Hcur); [reflexivity | assumption |].
  simpl. f_equal. lia.
Qed.

(** Once the verification has reached the amount, its verdict is that of
    the checks on the recipient and the amount. *)
Lemma verify_reaches connection signature requirements commitment tx
    recipientKey expectedAmount :
  reaches_amount connection signature requirements commitment tx
                 recipientKey expectedAmount ->
  verifyPaymentTransaction connection signature requirements commitment =
    try_catch
      (match token requirements with
       | SOL => verify_native tx recipientKey expectedAmount
       | _ => verify_token tx requirements recipientKey expectedAmount
       end)
      (fun _ => Ok false).
Proof.
  intros (Htx & Herr & Hdeep & Hkey & Hamount).
  unfold verifyPaymentTransaction, verify_body, verify_transfer.
  rewrite Htx. simpl. rewrite Herr, (too_young_deep _ _ _ Hdeep). simpl.
  rewrite Hkey, Hamount. simpl. now destruct (token requirements).
Qed.

(** C1.  Native asset: when the verification reaches the amount and the
    recipient is the account of index [i], the verdict is whether the
    balance of that account after the transaction minus its balance
    before, on unbounded integers, is at least the required amount.  One
    base unit short is rejected; the amount or more is accepted, with
    nothing subtracted. *)
Theorem verify_native_amount_strict connection signature requirements
    commitment tx recipientKey expectedAmount keys i m pre post :
  token requirements = SOL ->
  reaches_amount connection signature requirements commitment tx
                 recipientKey expectedAmount ->
  getAccountKeys tx = Ok keys ->
  findIndex (fun key => PublicKey_equals key recipientKey) keys = Some i ->
  meta tx = Some m ->
  nth_error (preBalances m) i = Some pre ->
  nth_error (postBalances m) i = Some post ->
  verifyPaymentTransaction connection signature requirements commitment
  = Ok (expectedAmount <=? post - pre) /\
  (post - pre = expectedAmount - 1 ->
   verifyPaymentTransaction connection signature requirements commitment
   = Ok false) /\
  (expectedAmount <= post - pre ->
   verifyPaymentTransaction connection signature requirements commitment
   = Ok true).
Proof.
  intros Htoken Hreach Hkeys Hindex Hmeta Hpre Hpost.
  assert (Hverdict :
    verifyPaymentTransaction connection signature requirements commitment
    = Ok (expectedAmount <=? post - pre)).
  { rewrite (verify_reaches _ _ _ _ _ _ _ Hreach), Htoken.
    unfold verify_native, number_at.
    rewrite Hkeys. simpl. rewrite Hindex, Hmeta, Hpre, Hpost.
    destruct (Z.ltb_spec (post - pre) expectedAmount),
             (Z.leb_spec expectedAmount (post - pre));
      try reflexivity; lia. }
  rewrite Hverdict. repeat split.
  - intros E. f_equal. apply Z.leb_gt. lia.
  - intros E. f_equal. now apply Z.leb_le.
Qed.

(** C5.  The verifier never throws, and a transaction that the ledger
    does not know at the commitment asked for is a rejection. *)
Theorem verify_absent_transaction connection signature requirements
    commitment :
  (exists verdict,
     verifyPaymentTransaction connection signature requirements commitment
     = Ok verdict) /\
  (getTransaction connection signature commitment = Ok None ->
   verifyPaymentTransaction connection signature requirements commitment
   = Ok false).
Proof.
  split; [apply verify_never_throws|].
  intros Habsent.
  unfold verifyPaymentTransaction, verify_body. now rewrite Habsent.
Qed.

Lemma findIndex_none {A} (p : A -> bool) (l : list A) :
  findIndex p l = None <-> forall x, In x l -> p x = false.
Proof.
  induction l as [|x l IH]; simpl.
  - split; [intros _ ? [] | reflexivity].
  - destruct (p x) eqn:Hx.
    + split; [discriminate|]. intros Hall.
      rewrite (Hall x) in Hx; [discriminate | now left].
    + destruct (findIndex p l); simpl.
      * split; [discriminate|]. intros Hall.
        assert (Some n = None) by (apply IH; intros; apply Hall; now right).
        discriminate.
      * split; [|reflexivity]. intros _ y [<-|Hy]; [assumption|].
        now apply IH.
Qed.

Lemma find_none {A} (p : A -> bool) (l : list A) :
  (forall x, In x l -> p x = false) -> find p l = None.
Proof.
  induction l as [|x l IH]; simpl; [reflexivity|]. intros Hall.
  rewrite (Hall x) by now left. apply IH. intros; apply Hall; now right.
Qed.

Lemma find_some {A} (p : A -> bool) (l : list A) (x : A) :
  find p l = Some x -> In x l /\ p x = true.
Proof.
  induction l as [|y l IH]; simpl; [discriminate|].
  destruct (p y) eqn:Hy.
  - intros [= <-]. split; [now left | assumption].
  - intros Hx. destruct (IH Hx). split; [now right | assumption].
Qed.

Lemma balance_matches_spec recipientKey mintAddress balance :
  balance_matches recipientKey mintAddress balance = true <->
  owner balance = Some (toBase58 recipientKey) /\
  mint balance = toBase58 mintAddress.
Proof.
  unfold balance_matches. rewrite andb_true_iff, String.eqb_eq.
  destruct (owner balance) as [o|].
  - rewrite String.eqb_eq. split; intros [Ho Hm]; split; congruence.
  - split; intros [Ho Hm]; discriminate.
Qed.

(** C2, amended.  Whatever else holds, a native-asset transaction none of
    whose static account keys is the recipient of the requirements is
    rejected, and so is a token transaction after which no token balance
    of the mint of the asset is owned by the recipient. *)
Theorem verify_recipient_strict connection signature requirements
    commitment :
  (token requirements = SOL ->
   (forall tx keys recipientKey,
      getTransaction connection signature commitment = Ok (Some tx) ->
      getAccountKeys tx = Ok keys ->
      PublicKey_new (recipient requirements) = Ok recipientKey ->
      forall key, In key keys -> PublicKey_equals key recipientKey = false) ->
   verifyPaymentTransaction connection signature requirements commitment
   = Ok false) /\
  (token requirements <> SOL ->
   (forall tx recipientKey mintAddress,
      getTransaction connection signature commitment = Ok (Some tx) ->
      PublicKey_new (recipient requirements) = Ok recipientKey ->
      PublicKey_new (TOKEN_MINTS (network requirements) (token requirements))
      = Ok mintAddress ->
      forall balance, In balance (posts_of tx) ->
        ~ (owner balance = Some (toBase58 recipientKey) /\
           mint balance = toBase58 mintAddress)) ->
   verifyPaymentTransaction connection signature requirements commitment
   = Ok false).
Proof.
  split; intros Htoken Habsent;
    unfold verifyPaymentTransaction, verify_body;
    (destruct (getTransaction connection signature commitment)
       as [[tx|]|e] eqn:Htx; simpl; try reflexivity);
    (destruct (meta_err tx); [reflexivity|]);
    (destruct (too_young connection commitment tx) as [[]|]; simpl;
       try reflexivity);
    unfold verify_transfer;
    (destruct (PublicKey_new (recipient requirements)) as [r|] eqn:Hr; simpl;
       [|reflexivity]);
    (destruct (BigInt (amount requirements)) as [expectedAmount|]; simpl;
       [|reflexivity]).
  - rewrite Htoken. unfold verify_native.
    destruct (getAccountKeys tx) as [keys|] eqn:Hkeys; simpl; [|reflexivity].
    assert (findIndex (fun key => PublicKey_equals key r) keys = None) as ->
      by (apply findIndex_none; eauto).
    reflexivity.
  - assert (Hbranch :
      match token requirements with
      | SOL => verify_native tx r expectedAmount
      | _ => verify_token tx requirements r expectedAmount
      end = verify_token tx requirements r expectedAmount)
      by (destruct (token requirements); congruence).
    rewrite Hbranch. unfold verify_token.
    destruct (PublicKey_new (TOKEN_MINTS _ _)) as [mintAddress|] eqn:Hmint;
      simpl; [|reflexivity].
    destruct (getAssociatedTokenAddress mintAddress r); simpl; [|reflexivity].
    fold (posts_of tx). rewrite find_none; [reflexivity|].
    intros balance Hin.
    destruct (balance_matches r mintAddress balance) eqn:E; [|reflexivity].
    apply balance_matches_spec in E.
    now apply (Habsent tx r mintAddress eq_refl eq_refl eq_refl) in Hin.
Qed.

End Verifier.

Section VerifierToken.

Context `{Web3}.


End VerifierToken.

(** ** The verifier on the sample ledgers *)

Section VerifierSamples.

Import Sample.
#[local] Existing Instance text_keys.

Lemma sample_reaches (c : Commitment) (tx : TransactionResponse)
    (t : TokenType) (head : Z) :
  c <> finalized -> meta_err tx = false ->
  reaches_amount (node tx head) "sig1" (requirements t "1000000") c tx
                 merchant 1000000.
Proof.
  intros Hc Herr. repeat split; try reflexivity; try assumption.
  intros Hf. contradiction.
Qed.

Lemma verify_native_amount_strict_witness :
  verifyPaymentTransaction (paid 999999) "sig1" asked confirmed = Ok false /\
  verifyPaymentTransaction (paid 1000000) "sig1" asked confirmed = Ok true /\
  verifyPaymentTransaction (paid 1000001) "sig1" asked confirmed = Ok true.
Proof.
  split; [|split].
  - refine (proj1 (proj2 (verify_native_amount_strict
      (paid 999999) "sig1" asked confirmed
      (nativeTransfer 100 merchant 999999) merchant 1000000
      [payer; merchant; systemProgram] 1%nat _ 20 (20 + 999999)
      eq_refl _ eq_refl eq_refl eq_refl eq_refl eq_refl)) _);
      [apply sample_reaches; [discriminate | reflexivity] | reflexivity].
  - refine (proj2 (proj2 (verify_native_amount_strict
      (paid 1000000) "sig1" asked confirmed
      (nativeTransfer 100 merchant 1000000) merchant 1000000
      [payer; merchant; systemProgram] 1%nat _ 20 (20 + 1000000)
      eq_refl _ eq_refl eq_refl eq_refl eq_refl eq_refl)) _);
      [apply sample_reaches; [discriminate | reflexivity] | lia].
  - refine (proj2 (proj2 (verify_native_amount_strict
      (paid 1000001) "sig1" asked confirmed
      (nativeTransfer 100 merchant 1000001) merchant 1000000
      [payer; merchant; systemProgram] 1%nat _ 20 (20 + 1000001)
      eq_refl _ eq_refl eq_refl eq_refl eq_refl eq_refl)) _);
      [apply sample_reaches; [discriminate | reflexivity] | lia].
Defined.

(** C2 as the specification has it does not hold for the tokens: the
    wallet of the recipient is not among the accounts of this transfer of
    USDC, and the transfer is accepted. *)
Lemma verify_token_accepts_recipient_outside_accounts :
  getAccountKeys (usdcTransfer 100 "0" "1000000")
  = Ok [payer; payerUsdc; merchantUsdc; tokenProgram] /\
  existsb (fun key => PublicKey_equals key merchant)
          [payer; payerUsdc; merchantUsdc; tokenProgram] = false /\
  verifyPaymentTransaction (node (usdcTransfer 100 "0" "1000000") 105)
    "sig1" (requirements USDC "1000000") confirmed = Ok true.
Proof. repeat split. Qed.

Lemma verify_recipient_strict_witness :
  verifyPaymentTransaction
    (node (nativeTransfer 100 stranger 1000000) 105) "sig1" asked confirmed
  = Ok false /\
  verifyPaymentTransaction
    (node (usdcTransfer 100 "0" "1000000") 105) "sig1"
    (requirements_of stranger USDC "1000000") confirmed
  = Ok false.
Proof.
  split.
  - apply (proj1 (verify_recipient_strict
                    (node (nativeTransfer 100 stranger 1000000) 105) "sig1"
                    asked confirmed) eq_refl).
    intros tx keys recipientKey Htx Hkeys Hkey key Hin.
    injection Htx as <-. injection Hkeys as <-. injection Hkey as <-.
    simpl in Hin. destruct Hin as [<- | [<- | [<- | []]]]; reflexivity.
  - apply (proj2 (verify_recipient_strict
                    (node (usdcTransfer 100 "0" "1000000") 105) "sig1"
                    (requirements_of stranger USDC "1000000") confirmed)).
    + discriminate.
    + intros tx recipientKey mintAddress Htx Hkey Hmint balance Hin.
      injection Htx as <-. injection Hkey as <-.
      simpl in Hin. destruct Hin as [<- | [<- | []]];
        intros [Howner _]; discriminate Howner.
Defined.




Lemma verify_absent_transaction_witness :
  verifyPaymentTransaction (paid 1000000) "sig2" asked confirmed = Ok false.
Proof.
  apply (proj2 (verify_absent_transaction (paid 1000000) "sig2" asked
                  confirmed)).
  reflexivity.
Defined.

End VerifierSamples.

(** * The transaction builder and the client orchestrator *)

Section ClientFacts.

Context `{Runtime}.

Lemma await_settled {A B} (r : res A) (k : A -> Promise B) (a : A) log :
  r = Ok a -> await (settled r) k log = k a log.
Proof. intros ->. reflexivity. Qed.

(** The builder for tokens, up to its look at the account of the payer. *)
Lemma token_build_steps connection payer requirements recipientKey
    mintAddress units senderATA recipientATA log :
  PublicKey_new (recipient requirements) = Ok recipientKey ->
  PublicKey_new (TOKEN_MINTS (network requirements) (token requirements))
  = Ok mintAddress ->
  BigInt (amount requirements) = Ok units ->
  getAssociatedTokenAddress mintAddress payer = Ok senderATA ->
  getAssociatedTokenAddress mintAddress recipientKey = Ok recipientATA ->
  createTokenPaymentTransaction connection payer requirements log =
    match getAccountInfo connection senderATA with
    | Throw e => (Throw e, log ++ [RpcGetAccountInfo senderATA])
    | Ok None =>
        (Throw (missing_source_account requirements senderATA),
         log ++ [RpcGetAccountInfo senderATA])
    | Ok (Some _) =>
        let log1 := log ++ [RpcGetAccountInfo senderATA] in
        let log2 := log1 ++ [RpcGetAccountInfo recipientATA] in
        match getAccountInfo connection recipientATA with
        | Throw e => (Throw e, log2)
        | Ok recipientAccount =>
            stamp connection payer
              (add (createTransferInstruction senderATA recipientATA
                                              payer units)
                   match recipientAccount with
                   | None =>
                       add (createAssociatedTokenAccountInstruction
                              payer recipientATA recipientKey mintAddress)
                           empty_transaction
                   | Some _ => empty_transaction
                   end)
              log2
        end
    end.
Proof.
  intros Hr Hm Hu Hs Hra. unfold createTokenPaymentTransaction.
  rewrite (await_settled _ _ _ _ Hr), (await_settled _ _ _ _ Hm),
    (await_settled _ _ _ _ Hu), (await_settled _ _ _ _ Hs),
    (await_settled _ _ _ _ Hra).
  unfold await at 1, call at 1.
  destruct (getAccountInfo connection senderATA) as [[info|]|e];
    reflexivity.
Qed.

Lemma stamp_instructions connection payer t log t' log' :
  stamp connection payer t log = (Ok t', log') ->
  instructions t' = instructions t.
Proof.
  unfold stamp, await, call, resolve.
  destruct (getLatestBlockhash connection); intros [= <- _]; reflexivity.
Qed.

(** C6.  Building a token payment for a payer who has no associated token
    account for the mint fails with the error of the builder for that
    case (the MissingSourceAccount of the specification; in the code a
    [TransactionFailedError] whose message says so), after a single
    look-up of that account.  Carried through [executePayment] the failure
    ends the payment with nothing signed and nothing submitted.  And no
    transaction the builder returns has an instruction creating the token
    account of the payer. *)
Theorem token_build_missing_source_account node payer requirements
    recipientKey mintAddress units senderATA recipientATA log :
  token requirements <> SOL ->
  PublicKey_new (recipient requirements) = Ok recipientKey ->
  PublicKey_new (TOKEN_MINTS (network requirements) (token requirements))
  = Ok mintAddress ->
  BigInt (amount requirements) = Ok units ->
  getAssociatedTokenAddress mintAddress payer = Ok senderATA ->
  getAssociatedTokenAddress mintAddress recipientKey = Ok recipientATA ->
  (getAccountInfo node senderATA = Ok None ->
   createPaymentTransaction node payer requirements log =
     (Throw (missing_source_account requirements senderATA),
      log ++ [RpcGetAccountInfo senderATA]) /\
   forall client signer,
     connection client = node ->
     getPublicKey signer = payer ->
     executePayment client requirements signer log =
       (Throw (TransactionFailedError
                 ("Payment execution failed: " +:+
                  error_message
                    (missing_source_account requirements senderATA))
                 (Some (missing_source_account requirements senderATA))),
        log ++ [RpcGetAccountInfo senderATA])) /\
  (forall transaction log',
     createPaymentTransaction node payer requirements log =
       (Ok transaction, log') ->
     forall p o m,
       ~ In (createAssociatedTokenAccountInstruction p senderATA o m)
            (instructions transaction)).
Proof.
  intros Htoken Hr Hm Hu Hs Hra.
  assert (Hbuild :
    createPaymentTransaction node payer requirements log =
    createTokenPaymentTransaction node payer requirements log)
    by (unfold createPaymentTransaction;
        destruct (token requirements); congruence).
  rewrite Hbuild.
  rewrite (token_build_steps _ _ _ _ _ _ _ _ _ Hr Hm Hu Hs Hra).
  split.
  - intros Hnone. rewrite Hnone. split; [reflexivity|].
    intros client signer Hconn Hpayer.
    unfold executePayment, try_await, await at 1.
    rewrite Hconn, Hpayer, Hbuild.
    rewrite (token_build_steps _ _ _ _ _ _ _ _ _ Hr Hm Hu Hs Hra), Hnone.
    reflexivity.
  - intros transaction log'.
    destruct (getAccountInfo node senderATA) as [[info|]|e] eqn:Hsender;
      try discriminate.
    cbv zeta.
    destruct (getAccountInfo node recipientATA) as [[info'|]|e] eqn:Hrec;
      try discriminate;
      intros Hstamp p o m Hin;
      rewrite (stamp_instructions _ _ _ _ _ _ Hstamp) in Hin;
      simpl in Hin.
    + destruct Hin as [E | []]. discriminate E.
    + destruct Hin as [E | [E | []]]; [|discriminate E].
      injection E as _ E _ _. congruence.
Qed.


(** With automatic payment switched off, a 402 answer is handed back
    like any other and nothing is thrown. *)
Lemma fetch_hands_back_challenge_without_auto_payment client url options
    response log :
  autoPayment options = Some false ->
  global_fetch url (fetchOptions options) = Ok response ->
  fetch client url options log =
    (Ok response, log ++ [HttpFetch url (fetchOptions options)]).
Proof.
  intros Hauto Hresp. unfold fetch, await, call.
  rewrite Hresp, Hauto, andb_false_r. reflexivity.
Qed.

(** C9, amended.  With automatic payment on (the default), a 402 answer
    whose body parses as payment requirements, and no signer on the
    request nor on the client, the orchestrator throws a
    [PaymentRequiredError] carrying those requirements; the only call it
    has made is the original request. *)
Theorem fetch_without_signer client url options response body_
    requirements log :
  autoPayment options <> Some false ->
  signer options = None ->
  config_signer (config client) = None ->
  global_fetch url (fetchOptions options) = Ok response ->
  status response = 402 ->
  json response = Ok body_ ->
  PaymentRequirementsSchema_parse body_ = Ok requirements ->
  fetch client url options log =
    (Throw (PaymentRequiredError
              requirements "Payment required but no signer provided"),
     log ++ [HttpFetch url (fetchOptions options)]).
Proof.
  intros Hauto Hsigner Hconfig Hresp Hstatus Hjson Hparse.
  unfold fetch, await at 1, call.
  rewrite Hresp, Hstatus, Hsigner, Hconfig.
  assert (match autoPayment options with Some b => b | None => true end
          = true) as -> by (destruct (autoPayment options) as [[]|]; congruence).
  simpl. unfold await, parsePaymentRequirements, try_await, await, settled.
  rewrite Hjson, Hparse. reflexivity.
Qed.

(** The second request is the first with the payment header set and the
    content type set. *)
Lemma retry_headers (init : RequestInit) (proof : PaymentProof) :
  Headers_new (headers (retry_init init proof)) =
    <["content-type" := "application/json"]>
      (<["x-payment" := JSON_stringify_proof proof]>
         (Headers_new (headers init))).
Proof. reflexivity. Qed.

(** C10, amended.  The retry is one request to the same URL, whose answer
    is handed back as it is.  It carries the proof in the header
    X-Payment, has the method, the body and the other members of the
    original request, and every header of the original request other than
    X-Payment and Content-Type; Content-Type is set to
    application/json.  In [fetch], it is what follows a payment that
    yields a proof. *)
Theorem retry_preserves_request url (init : RequestInit)
    (proof : PaymentProof) log :
  let retry := retry_init init proof in
  retryWithPayment url init proof log =
    (global_fetch url retry, log ++ [HttpFetch url retry]) /\
  method retry = method init /\
  body retry = body init /\
  others retry = others init /\
  Headers_new (headers retry) !! "x-payment"
  = Some (JSON_stringify_proof proof) /\
  Headers_new (headers retry) !! "content-type" = Some "application/json" /\
  (forall name : string,
     name <> "x-payment" -> name <> "content-type" ->
     Headers_new (headers retry) !! name
     = Headers_new (headers init) !! name) /\
  (forall client options response requirements requestSigner log1,
     fetchOptions options = init ->
     autoPayment options <> Some false ->
     global_fetch url init = Ok response ->
     status response = 402 ->
     match signer options with
     | Some s => Some s
     | None => config_signer (config client)
     end = Some requestSigner ->
     parsePaymentRequirements response (log ++ [HttpFetch url init])
     = (Ok requirements, log ++ [HttpFetch url init]) ->
     match onPaymentRequired options with
     | Some handler => handler requirements
     | None => executePayment client requirements requestSigner
     end (log ++ [HttpFetch url init]) = (Ok proof, log1) ->
     fetch client url options log =
       (global_fetch url retry, log1 ++ [HttpFetch url retry])).
Proof.
  intros retry. repeat split.
  - subst retry. rewrite retry_headers.
    rewrite lookup_insert_ne by discriminate. apply lookup_insert_eq.
  - subst retry. rewrite retry_headers. apply lookup_insert_eq.
  - intros name Hx Hc. subst retry. rewrite retry_headers.
    rewrite !lookup_insert_ne by congruence. reflexivity.
  - intros client options response requirements requestSigner log1
      Hinit Hauto Hresp Hstatus Hsigner Hparse Hpay.
    unfold fetch, await at 1, call. rewrite Hinit, Hresp, Hstatus, Hsigner.
    assert (match autoPayment options with Some b => b | None => true end
            = true) as ->
      by (destruct (autoPayment options) as [[]|]; congruence).
    simpl. unfold await at 1. rewrite Hparse.
    unfold await at 1. rewrite Hpay. reflexivity.
Qed.

End ClientFacts.

(** ** The client on the sample server *)

Section ClientSamples.

Import Sample SampleClient.
#[local] Existing Instance text_keys.
#[local] Existing Instance runtime.

Lemma token_build_missing_source_account_witness :
  createPaymentTransaction (paid 1000000) payer
    (requirements USDC "1000000") [] =
    (Throw (missing_source_account (requirements USDC "1000000")
              (payer +:+ "/" +:+ TOKEN_MINTS devnet USDC)),
     [RpcGetAccountInfo (payer +:+ "/" +:+ TOKEN_MINTS devnet USDC)]).
Proof.
  refine (proj1 (proj1 (token_build_missing_source_account
    (paid 1000000) payer (requirements USDC "1000000") merchant
    (TOKEN_MINTS devnet USDC) 1000000
    (payer +:+ "/" +:+ TOKEN_MINTS devnet USDC)
    (merchant +:+ "/" +:+ TOKEN_MINTS devnet USDC) []
    _ eq_refl eq_refl eq_refl eq_refl eq_refl) eq_refl)).
  discriminate.
Defined.

(** C9 as the specification has it does not hold: no signer anywhere, a
    402 answer, and with [autoPayment] false the answer comes back, no
    error. *)
Lemma fetch_without_signer_returns_challenge :
  status challenge = 402 /\
  signer (options (Some false) None) = None /\
  config_signer (config (client None)) = None /\
  fetch (client None) "https://api.example.com/data"
        (options (Some false) None) [] =
    (Ok challenge, [HttpFetch "https://api.example.com/data" post]).
Proof. repeat split. Qed.

Lemma fetch_without_signer_witness :
  fetch (client None) "https://api.example.com/data"
        (options None None) [] =
    (Throw (PaymentRequiredError
              asked "Payment required but no signer provided"),
     [HttpFetch "https://api.example.com/data" post]).
Proof.
  refine (fetch_without_signer (client None) "https://api.example.com/data"
            (options None None) challenge _ asked []
            _ eq_refl eq_refl eq_refl eq_refl eq_refl eq_refl).
  discriminate.
Defined.

(** C10 as the specification has it does not hold for the header
    Content-Type: the original request says text/plain, the retry
    application/json. *)
Lemma retry_overwrites_content_type :
  Headers_new (headers post) !! "content-type" = Some "text/plain" /\
  Headers_new (headers (retry_init post proof)) !! "content-type"
  = Some "application/json".
Proof. split; reflexivity. Qed.

Lemma retry_preserves_request_witness :
  exists log1,
    fetch (client (Some (Keypair payer "secret")))
          "https://api.example.com/data" (options None None) [] =
      (Ok served,
       log1 ++ [HttpFetch "https://api.example.com/data"
                          (retry_init post proof)]).
Proof.
  eexists.
  refine (proj2 (proj2 (proj2 (proj2 (proj2 (proj2 (proj2
    (retry_preserves_request "https://api.example.com/data" post proof
       []))))))) (client (Some (Keypair payer "secret")))
    (options None None) challenge asked (Keypair payer "secret") _
    eq_refl _ eq_refl eq_refl eq_refl eq_refl _);
    [discriminate | reflexivity].
Defined.

End ClientSamples.

(** * From base units to an amount and back *)

Lemma toString_nonneg (n : Z) :
  0 <= n ->
  exists u,
    BigInt.toString n = su u /\ u <> Nil /\ unorm u = u /\ Z.of_uint u = n.
Proof.
  intros Hn. unfold BigInt.toString.
  destruct n as [|p|p]; [| |lia].
  - exists (D0 Nil). repeat split; discriminate.
  - exists (Pos.to_uint p). cbn [Z.to_int NilZero.string_of_int].
    pose proof (DecimalPos.Unsigned.to_uint_nonnil p) as Hnil.
    pose proof (DecimalPos.Unsigned.of_to p) as Hof.
    repeat split.
    + unfold NilZero.string_of_uint. now destruct (Pos.to_uint p).
    + assumption.
    + rewrite <- (DecimalPos.Unsigned.to_of (Pos.to_uint p)), Hof.
      reflexivity.
    + unfold Z.of_uint. now rewrite Hof.
Qed.

Lemma padStart_zeros (s : string) (m : nat) :
  Js.padStart s (Z.of_nat m) "0" = zeros (m - String.length s) +:+ s.
Proof.
  unfold Js.padStart, Js.len.
  destruct (Z.leb_spec (Z.of_nat m) (Z.of_nat (String.length s))).
  - now replace (m - String.length s)%nat with 0%nat by lia.
  - replace (Z.to_nat _) with (m - String.length s)%nat by lia.
    now rewrite (proj2 (fill_zeros _)).
Qed.

Lemma zeros1_zeros (s : string) :
  zeros1 s = true -> s = zeros (String.length s).
Proof.
  induction s as [|c s IH]; [discriminate|]. intros Hz.
  destruct c as [[] [] [] [] [] [] [] []]; try discriminate Hz.
  destruct s as [|c' s]; [reflexivity|].
  change (zeros1 (String c' s) = true) in Hz.
  cbn [String.length zeros]. f_equal. now apply IH.
Qed.

Lemma digits_drop_trailing_zeros (s : string) :
  all_digits s = true -> all_digits (drop_trailing_zeros s) = true.
Proof.
  induction s as [|c s IH]; [reflexivity|]. intros Hs.
  cbn [all_digits] in Hs. apply andb_prop in Hs as [Hc Hs].
  specialize (IH Hs). cbn [drop_trailing_zeros].
  destruct (drop_trailing_zeros s) eqn:E.
  - destruct (Ascii.eqb c "0"); [reflexivity|]. simpl. now rewrite Hc.
  - cbn [all_digits] in *. now rewrite Hc.
Qed.

(** A run of digits is what is left of it without its last zeros, padded
    with zeros to its length. *)
Lemma drop_trailing_zeros_pad (s : string) :
  drop_trailing_zeros s +:+
    zeros (String.length s - String.length (drop_trailing_zeros s)) = s /\
  (String.length (drop_trailing_zeros s) <= String.length s)%nat.
Proof.
  induction s as [|c s [IH Hlen]]; [split; reflexivity|].
  cbn [drop_trailing_zeros].
  destruct (drop_trailing_zeros s) eqn:E.
  - simpl in IH. rewrite Nat.sub_0_r in IH.
    destruct (Ascii.eqb_spec c "0") as [->|Hc].
    + split; [|simpl; lia]. simpl. now rewrite IH.
    + split; [|simpl; lia]. simpl. rewrite Nat.sub_0_r. now rewrite IH.
  - split; [|simpl in *; lia].
    replace (String.length (String c s) -
             String.length (String c (String a s0)))%nat
      with (String.length s - String.length (String a s0))%nat
      by (simpl; lia).
    cbn [String.append]. cbn [String.append] in IH. now rewrite IH.
Qed.

(** The text [baseUnitsToAmount] prints, from the whole part and the
    fraction it cuts the padded digits into. *)
Lemma baseUnitsToAmount_cut (token : TokenType) (n : Z) :
  0 <= n ->
  exists whole frac,
    all_digits whole = true /\ whole <> EmptyString /\
    all_digits frac = true /\
    String.length frac = decimals_nat token /\
    digits_value (whole +:+ frac) = n /\
    (whole = "0" \/
     exists c r, whole = String c r /\ c <> "0"%char) /\
    baseUnitsToAmount n token =
      whole +:+ (if zeros1 frac then EmptyString
                 else String "." (drop_trailing_zeros frac)).
Proof.
  intros Hn. destruct (toString_nonneg n Hn) as (u & Hs & Hnil & Hnorm & Hval).
  pose proof (decimals_nat_eq token) as Hdec.
  pose proof (decimals_nat_pos token) as Hpos.
  set (dec := decimals_nat token) in *.
  set (s := su u) in *.
  assert (Hsd : all_digits s = true) by apply digits_of_uint.
  assert (Hsl : (0 < String.length s)%nat).
  { subst s. rewrite length_su. destruct u; simpl; try lia. congruence. }
  set (str := zeros (S dec - String.length s) +:+ s).
  assert (Hstr : Js.padStart (BigInt.toString n) (TOKEN_DECIMALS token + 1) "0"
                 = str).
  { rewrite Hs, Hdec. replace (Z.of_nat dec + 1) with (Z.of_nat (S dec)) by lia.
    apply padStart_zeros. }
  assert (Hstrd : all_digits str = true)
    by (subst str; now rewrite digits_append, digits_zeros, Hsd).
  assert (Hstrl : (dec < String.length str)%nat)
    by (subst str; rewrite length_append, length_zeros; lia).
  assert (Hstrv : digits_value str = n).
  { subst str. rewrite digits_value_append, digits_value_zeros.
    subst s. rewrite digits_value_su. lia. }
  set (k := (String.length str - dec)%nat).
  exists (Js.take k str), (Js.drop k str).
  assert (Hcut : Js.take k str +:+ Js.drop k str = str) by apply take_drop.
  assert (Hfl : String.length (Js.drop k str) = dec)
    by (rewrite length_drop; subst k; lia).
  assert (Hfne : Js.drop k str <> EmptyString).
  { intros E. rewrite E in Hfl. simpl in Hfl. lia. }
  assert (Hwd : all_digits (Js.take k str) = true) by now apply digits_take.
  assert (Hwne : Js.take k str <> EmptyString).
  { intros E. pose proof (length_take k str) as L. rewrite E in L.
    simpl in L. subst k. lia. }
  repeat split; try assumption.
  - now apply digits_drop.
  - now rewrite Hcut.
  - (* the whole part has no redundant leading zero *)
    destruct (Nat.le_gt_cases (String.length s) dec) as [Hshort|Hlong].
    + left. subst k str. rewrite length_append, length_zeros.
      replace (S dec - String.length s + String.length s - dec)%nat
        with 1%nat by lia.
      destruct (S dec - String.length s)%nat eqn:E; [lia|]. reflexivity.
    + right. subst str. replace (S dec - String.length s)%nat with 0%nat in *
        by lia.
      cbn [zeros String.append] in *.
      destruct s as [|c r] eqn:Es; [simpl in Hsl; lia|].
      destruct k as [|k'] eqn:Ek; [subst k; simpl in *; lia|].
      exists c, (Js.take k' r). split; [reflexivity|].
      intros ->. destruct u; try discriminate Es.
      rewrite unorm_D0 in Hnorm.
      destruct u; try discriminate Hnorm.
      * simpl in Es. injection Es as <-. simpl in Hlong. lia.
      * pose proof (nzhead_nonzero (D0 u) u) as Hz.
        unfold unorm in Hnorm. simpl in Hnorm.
        destruct (nzhead u) eqn:En; try discriminate Hnorm.
        exfalso. apply (nzhead_nonzero u u0). congruence.
  - unfold baseUnitsToAmount. rewrite Hstr, Hdec.
    assert (Hfd : all_digits (Js.drop k str) = true) by now apply digits_drop.
    set (w := Js.take k str) in *. set (f := Js.drop k str) in *.
    clearbody w f. rewrite <- Hcut.
    replace (Z.of_nat dec) with (Js.len f)
      by (unfold Js.len; now rewrite Hfl).
    rewrite slice_front, slice_back by assumption.
    rewrite or_else_nonempty by assumption.
    change (w +:+ "." +:+ f) with (w +:+ String "." f).
    rewrite strip_whole by assumption.
    destruct (zeros1 f); [reflexivity|].
    now rewrite strip_digits.
Qed.

(** X1.  Base units to amount and back: for every non-negative number of
    base units, the amount [baseUnitsToAmount] prints is read back by
    [amountToBaseUnits] as that number. *)
Theorem base_units_round_trip (token : TokenType) (n : Z) :
  0 <= n ->
  amountToBaseUnits (baseUnitsToAmount n token) token = Ok n.
Proof.
  intros Hn.
  destruct (baseUnitsToAmount_cut token n Hn)
    as (whole & frac & Hwd & Hwne & Hfd & Hfl & Hval & _ & ->).
  assert (Hw : whole_digits whole = true)
    by (destruct whole; [congruence | exact Hwd]).
  destruct (zeros1 frac) eqn:Hz.
  - rewrite append_empty_r.
    rewrite (amountToBaseUnits_parts token whole whole None);
      [| now apply split_digits | assumption | exact I].
    cbn [String.append String.length]. rewrite Nat.sub_0_r.
    rewrite take_short by (rewrite length_zeros; lia).
    rewrite (zeros1_zeros frac Hz), Hfl in Hval. now rewrite Hval.
  - pose proof (digits_drop_trailing_zeros frac Hfd) as Hdd.
    pose proof (drop_trailing_zeros_pad frac) as [Hpad Hlen].
    rewrite (amountToBaseUnits_parts token _ whole
               (Some (drop_trailing_zeros frac)));
      [| now apply (split_whole_fraction whole _) | assumption | assumption].
    rewrite <- Hfl, Hpad, take_all. now rewrite Hval.
Qed.

Lemma base_units_round_trip_witness :
  0 <= 1500000 /\
  amountToBaseUnits (baseUnitsToAmount 1500000 USDC) USDC = Ok 1500000.
Proof.
  split; [lia | apply (base_units_round_trip USDC 1500000); lia].
Defined.

Lemma split_point_digits (w : string) :
  all_digits w = true -> split_point w = (w, None).
Proof.
  induction w as [|c w IH]; [reflexivity|]. intros Hw.
  cbn [all_digits] in Hw. apply andb_prop in Hw as [Hc Hw].
  cbn [split_point]. rewrite (IH Hw). digit_cases c Hc; reflexivity.
Qed.

Lemma drop_trailing_zeros_idempotent (s : string) :
  drop_trailing_zeros (drop_trailing_zeros s) = drop_trailing_zeros s.
Proof.
  induction s as [|c s IH]; [reflexivity|].
  cbn [drop_trailing_zeros].
  destruct (drop_trailing_zeros s) eqn:E.
  - destruct (Ascii.eqb c "0") eqn:Hc; [reflexivity|].
    cbn [drop_trailing_zeros]. now rewrite Hc.
  - cbn [drop_trailing_zeros]. cbn [drop_trailing_zeros] in IH.
    now rewrite IH.
Qed.

(** X2.  What [baseUnitsToAmount] prints for a non-negative number of base
    units is a valid amount of the asset, in canonical form: a whole part
    without redundant leading zeros and, if the fraction is not zero, a
    point and at most [decimals] digits, the last of them not a zero. *)
Theorem baseUnitsToAmount_canonical (token : TokenType) (n : Z) :
  0 <= n ->
  valid_amount token (baseUnitsToAmount n token) = true /\
  canonical (baseUnitsToAmount n token) = baseUnitsToAmount n token.
Proof.
  intros Hn.
  destruct (baseUnitsToAmount_cut token n Hn)
    as (whole & frac & Hwd & Hwne & Hfd & Hfl & _ & Hlead & ->).
  assert (Hwc : whole_canonical whole = true).
  { destruct Hlead as [-> | (c & r & -> & Hc)]; [reflexivity|].
    cbn [all_digits] in Hwd. pose proof Hwd as Hwd'.
    apply andb_prop in Hwd' as [Hcd _].
    unfold whole_canonical.
    digit_cases c Hcd; try exact Hwd. congruence. }
  unfold valid_amount, canonical.
  destruct (zeros1 frac) eqn:Hz.
  - rewrite append_empty_r, (split_point_digits whole Hwd), Hwc.
    split; reflexivity.
  - rewrite split_point_whole by assumption.
    pose proof (digits_drop_trailing_zeros frac Hfd) as Hdd.
    pose proof (drop_trailing_zeros_pad frac) as [_ Hlen].
    rewrite Hwc, Hdd, drop_trailing_zeros_idempotent. split.
    + simpl. apply Z.leb_le. unfold Js.len.
      rewrite decimals_nat_eq. lia.
    + destruct (drop_trailing_zeros frac) eqn:E; [|reflexivity].
      rewrite zeros1_of_drop in Hz; [discriminate | | assumption].
      intros ->. simpl in Hfl. pose proof (decimals_nat_pos token). lia.
Qed.

Lemma baseUnitsToAmount_canonical_witness :
  0 <= 1000000 /\
  valid_amount SOL (baseUnitsToAmount 1000000 SOL) = true /\
  canonical (baseUnitsToAmount 1000000 SOL) = baseUnitsToAmount 1000000 SOL.
Proof.
  split; [lia | apply (baseUnitsToAmount_canonical SOL 1000000); lia].
Defined.

Lemma split_whole_rest (w x : string) :
  all_digits w = true ->
  Js.split "." (w +:+ String "." x) = w :: Js.split "." x.
Proof.
  intros Hw. now rewrite split_split_point, split_point_whole.
Qed.

(** X3.  [amountToBaseUnits] reads the text before the first point and
    the text between the first and the second: what follows a second point
    is ignored, and a missing whole part counts as zero. *)
Theorem amountToBaseUnits_lenient (token : TokenType) :
  (forall w f rest,
     all_digits w = true -> all_digits f = true ->
     amountToBaseUnits (w +:+ "." +:+ f +:+ "." +:+ rest) token =
     amountToBaseUnits (w +:+ "." +:+ f) token) /\
  (forall x,
     amountToBaseUnits ("." +:+ x) token =
     amountToBaseUnits ("0." +:+ x) token).
Proof.
  split.
  - intros w f rest Hw Hf. unfold amountToBaseUnits.
    change (w +:+ "." +:+ f +:+ "." +:+ rest)
      with (w +:+ String "." (f +:+ String "." rest)).
    change (w +:+ "." +:+ f) with (w +:+ String "." f).
    rewrite !split_whole_rest by assumption.
    rewrite (split_digits f Hf).
    destruct (Js.split "." rest); reflexivity.
  - intros x. unfold amountToBaseUnits. cbn [String.append Js.split].
    change (Ascii.eqb "." ".") with true.
    change (Ascii.eqb "0" ".") with false. cbv iota.
    destruct (Js.split "." x); reflexivity.
Qed.

Lemma amountToBaseUnits_lenient_witness :
  amountToBaseUnits ("1" +:+ "." +:+ "5" +:+ "." +:+ "9") USDC =
  amountToBaseUnits ("1" +:+ "." +:+ "5") USDC.
Proof.
  apply (proj1 (amountToBaseUnits_lenient USDC)); reflexivity.
Defined.

(** * The builders *)

Section BuilderFacts.

Context `{Runtime}.

(** The transaction the builder for SOL returns. *)
Lemma sol_build_steps node payer requirements recipientKey units log :
  PublicKey_new (recipient requirements) = Ok recipientKey ->
  BigInt (amount requirements) = Ok units ->
  createSOLPaymentTransaction node payer requirements log =
    if MAX_SAFE_INTEGER <? units
    then (Throw (TransactionFailedError
                   ("Amount " +:+ BigInt.toString units +:+
                    " exceeds safe integer range. Use a smaller amount.")
                   None), log)
    else stamp node payer
           (add (SystemProgram_transfer payer recipientKey units)
                empty_transaction) log.
Proof.
  intros Hr Hu. unfold createSOLPaymentTransaction.
  rewrite (await_settled _ _ _ _ Hr), (await_settled _ _ _ _ Hu).
  now destruct (MAX_SAFE_INTEGER <? units).
Qed.

(** X4.  A payment in SOL of more than [Number.MAX_SAFE_INTEGER] lamports
    is refused by the builder before any call to the node, and
    [executePayment] then fails without having made any call at all. *)
Theorem sol_build_out_of_range node payer requirements recipientKey units
    log :
  token requirements = SOL ->
  PublicKey_new (recipient requirements) = Ok recipientKey ->
  BigInt (amount requirements) = Ok units ->
  MAX_SAFE_INTEGER < units ->
  let refused :=
    TransactionFailedError
      ("Amount " +:+ BigInt.toString units +:+
       " exceeds safe integer range. Use a smaller amount.") None in
  createPaymentTransaction node payer requirements log
  = (Throw refused, log) /\
  forall client signer,
    connection client = node ->
    getPublicKey signer = payer ->
    executePayment client requirements signer log =
      (Throw (TransactionFailedError
                ("Payment execution failed: " +:+ error_message refused)
                (Some refused)), log).
Proof.
  intros Htoken Hr Hu Hbig refused.
  assert (Hbuild :
    createPaymentTransaction node payer requirements log
    = (Throw refused, log)).
  { unfold createPaymentTransaction. rewrite Htoken.
    rewrite (sol_build_steps _ _ _ _ _ _ Hr Hu).
    now destruct (Z.ltb_spec MAX_SAFE_INTEGER units); [|lia]. }
  split; [assumption|].
  intros client signer Hconn Hpayer.
  unfold executePayment, try_await, await at 1.
  now rewrite Hconn, Hpayer, Hbuild.
Qed.



End BuilderFacts.

(** * Submission, confirmation and the calls they make *)

Section EffectFacts.

Context `{Runtime}.

Lemma count_app (kind : Event -> bool) (a b : list Event) :
  count kind (a ++ b) = (count kind a + count kind b)%nat.
Proof.
  induction a as [|e a IH]; [reflexivity|]. simpl.
  destruct (kind e); simpl; now rewrite IH.
Qed.

Lemma adds_weaken {A} (a b a' b' : nat) (m : Promise A) :
  adds a b m -> (a <= a')%nat -> (b <= b')%nat -> adds a' b' m.
Proof.
  intros Hm Ha Hb log. destruct (Hm log) as (calls & E & Hh & Hs).
  exists calls. unfold within. repeat split; [assumption | lia | lia].
Qed.

Lemma adds_settled {A} (r : res A) : adds 0 0 (settled r).
Proof.
  intros log. exists []. unfold within. simpl.
  now rewrite List.app_nil_r.
Qed.

Lemma adds_resolve {A} (x : A) : adds 0 0 (resolve x).
Proof. apply (adds_settled (Ok x)). Qed.

Lemma adds_reject {A} (e : Error) : adds 0 0 (reject (A := A) e).
Proof. apply (adds_settled (Throw e)). Qed.

Lemma adds_call {A} (ev : Event) (answer : res A) :
  adds (if is_http ev then 1 else 0) (if is_send ev then 1 else 0)
       (call ev answer).
Proof.
  intros log. exists [ev]. split; [reflexivity|].
  unfold within. simpl. destruct (is_http ev), (is_send ev); lia.
Qed.

Lemma adds_await {A B} (a1 b1 a2 b2 : nat) (m : Promise A)
    (k : A -> Promise B) :
  adds a1 b1 m -> (forall x, adds a2 b2 (k x)) ->
  adds (a1 + a2) (b1 + b2) (await m k).
Proof.
  intros Hm Hk log. unfold await.
  destruct (Hm log) as (c1 & E1 & Hh1 & Hs1).
  destruct (m log) as [[x|e] log1]; simpl in E1; subst log1.
  - destruct (Hk x (log ++ c1)) as (c2 & E2 & Hh2 & Hs2).
    exists (c1 ++ c2). rewrite E2, List.app_assoc. split; [reflexivity|].
    unfold within. rewrite !count_app. lia.
  - exists c1. split; [reflexivity|]. unfold within. lia.
Qed.

Lemma adds_try_await {A} (a1 b1 a2 b2 : nat) (body : Promise A)
    (handler : Error -> Promise A) :
  adds a1 b1 body -> (forall e, adds a2 b2 (handler e)) ->
  adds (a1 + a2) (b1 + b2) (try_await body handler).
Proof.
  intros Hm Hk log. unfold try_await.
  destruct (Hm log) as (c1 & E1 & Hh1 & Hs1).
  destruct (body log) as [[x|e] log1]; simpl in E1; subst log1.
  - exists c1. split; [reflexivity|]. unfold within. lia.
  - destruct (Hk e (log ++ c1)) as (c2 & E2 & Hh2 & Hs2).
    exists (c1 ++ c2). rewrite E2, List.app_assoc. split; [reflexivity|].
    unfold within. rewrite !count_app. lia.
Qed.

Lemma adds_await_settled {A B} (a b : nat) (r : res A)
    (k : A -> Promise B) :
  (forall x, adds a b (k x)) -> adds a b (await (settled r) k).
Proof. intros Hk. apply (adds_await 0 0 a b); [apply adds_settled | exact Hk]. Qed.

Lemma adds_stamp node payer t : adds 0 0 (stamp node payer t).
Proof.
  unfold stamp. apply (adds_await 0 0 0 0); [apply (adds_call RpcGetLatestBlockhash)|].
  intros x. apply adds_resolve.
Qed.

Lemma adds_build node payer requirements :
  adds 0 0 (createPaymentTransaction node payer requirements).
Proof.
  assert (Hsol : adds 0 0 (createSOLPaymentTransaction node payer requirements)).
  { unfold createSOLPaymentTransaction.
    apply adds_await_settled; intros r.
    apply adds_await_settled; intros u.
    destruct (MAX_SAFE_INTEGER <? u); [apply adds_reject | apply adds_stamp]. }
  assert (Htok : adds 0 0 (createTokenPaymentTransaction node payer requirements)).
  { unfold createTokenPaymentTransaction.
    do 5 (apply adds_await_settled; intros ?).
    apply (adds_await 0 0 0 0); [apply (adds_call (RpcGetAccountInfo _))|].
    intros [info|]; [|apply adds_reject].
    apply (adds_await 0 0 0 0); [apply (adds_call (RpcGetAccountInfo _))|].
    intros ra. apply adds_stamp. }
  unfold createPaymentTransaction. now destruct (token requirements).
Qed.

Lemma adds_send node transaction pk options :
  adds 0 1 (signAndSendTransaction node transaction pk options).
Proof.
  unfold signAndSendTransaction.
  apply (adds_try_await 0 1 0 0); [|intros e; apply adds_reject].
  apply adds_await_settled; intros signed.
  apply adds_await_settled; intros wire.
  apply (adds_call (RpcSendRawTransaction _ _)).
Qed.

Lemma adds_confirm node signature commitment :
  adds 0 0 (confirmTransaction node signature commitment).
Proof.
  unfold confirmTransaction.
  apply (adds_try_await 0 0 0 0); [|intros e; apply adds_reject].
  apply (adds_await 0 0 0 0); [apply (adds_call (RpcConfirmTransaction _ _))|].
  intros x. apply adds_resolve.
Qed.

Lemma adds_executePayment client requirements signer :
  adds 0 1 (executePayment client requirements signer).
Proof.
  unfold executePayment.
  apply (adds_try_await 0 1 0 0); [|intros e; apply adds_reject].
  apply (adds_await 0 0 0 1); [apply adds_build|]. intros transaction.
  apply (adds_await 0 1 0 0).
  - destruct signer as [pk sk|pk sign]; [apply adds_send|].
    apply (adds_await 0 0 0 1);
      [apply (adds_call (WalletSignTransaction _))|].
    intros signed. apply adds_await_settled; intros wire.
    apply (adds_call (RpcSendRawTransaction _ _)).
  - intros signature.
    apply (adds_await 0 0 0 0); [apply adds_confirm|].
    intros ok. destruct (negb ok); [apply adds_reject | apply adds_resolve].
Qed.

Lemma adds_parse response : adds 0 0 (parsePaymentRequirements response).
Proof.
  unfold parsePaymentRequirements.
  apply (adds_try_await 0 0 0 0); [|intros e; apply adds_reject].
  apply adds_await_settled; intros b. apply adds_settled.
Qed.

(** X10.  Without a payment handler of the caller, one call of [fetch]
    makes at most two requests over HTTP and submits at most one
    transaction, whatever the configuration says of retries; it only adds
    calls to the log. *)
Theorem fetch_calls_bounded client url options log :
  onPaymentRequired options = None ->
  exists calls,
    snd (fetch client url options log) = log ++ calls /\
    (count is_http calls <= 2)%nat /\
    (count is_send calls <= 1)%nat.
Proof.
  intros Hhandler.
  assert (Hadds : adds 2 1 (fetch client url options)).
  { unfold fetch. rewrite Hhandler.
    apply (adds_await 1 0 1 1); [apply (adds_call (HttpFetch _ _))|].
    intros response.
    destruct (_ && _); [|apply (adds_weaken 0 0); [apply adds_resolve | lia | lia]].
    destruct (match signer options with
              | Some s => Some s
              | None => config_signer (config client)
              end) as [s|].
    - apply (adds_await 0 0 1 1); [apply adds_parse|]. intros requirements.
      apply (adds_await 0 1 1 0); [apply adds_executePayment|].
      intros proof. unfold retryWithPayment.
      apply (adds_call (HttpFetch _ _)).
    - apply (adds_weaken 0 0); [|lia|lia].
      apply (adds_await 0 0 0 0); [apply adds_parse|].
      intros requirements. apply adds_reject. }
  destruct (Hadds log) as (calls & E & Hh & Hs). now exists calls.
Qed.

End EffectFacts.

(** * What a payment of the client amounts to *)

Section PaymentFacts.

Context `{Runtime}.

Lemma signAndSend_cases node transaction pk options log :
  signAndSendTransaction node transaction pk options log =
    match Transaction_sign transaction pk with
    | Throw e => (Throw (send_failed e), log)
    | Ok signed =>
        match Transaction_serialize signed with
        | Throw e => (Throw (send_failed e), log)
        | Ok wire =>
            let sent :=
              RpcSendRawTransaction wire (Some (used_options options)) in
            match sendRawTransaction node wire
                    (Some (used_options options)) with
            | Ok signature => (Ok signature, log ++ [sent])
            | Throw e => (Throw (send_failed e), log ++ [sent])
            end
        end
    end.
Proof.
  unfold signAndSendTransaction, try_await, await, settled, call, reject.
  destruct (Transaction_sign transaction pk) as [signed|e]; [|reflexivity].
  destruct (Transaction_serialize signed) as [wire|e]; [|reflexivity].
  unfold used_options.
  now destruct (sendRawTransaction node wire _).
Qed.


Lemma confirm_cases node signature commitment log :
  confirmTransaction node signature commitment log =
    (match rpc_confirmTransaction node signature commitment with
     | Ok None => Ok true
     | Ok (Some _) => Ok false
     | Throw e => Throw (confirm_failed e)
     end,
     log ++ [RpcConfirmTransaction signature commitment]).
Proof.
  unfold confirmTransaction, try_await, await, call, resolve, reject.
  now destruct (rpc_confirmTransaction node signature commitment)
    as [[err|]|e].
Qed.

Lemma executePayment_cases client requirements signer log :
  executePayment client requirements signer log =
    match createPaymentTransaction (connection client) (getPublicKey signer)
            requirements log with
    | (Throw e, log1) => (Throw (payment_failed e), log1)
    | (Ok transaction, log1) =>
        match submit client transaction signer log1 with
        | (Throw e, log2) => (Throw (payment_failed e), log2)
        | (Ok signature, log2) =>
            let c := payment_commitment client in
            let log3 := log2 ++ [RpcConfirmTransaction signature c] in
            match rpc_confirmTransaction (connection client) signature c with
            | Ok None =>
                (Ok {| proof_signature := signature;
                       proof_network := network requirements;
                       proof_requestId := requestId requirements;
                       proof_timestamp := Date_now |}, log3)
            | Ok (Some _) => (Throw (payment_failed (not_confirmed c)), log3)
            | Throw e => (Throw (payment_failed (confirm_failed e)), log3)
            end
        end
    end.
Proof.
  unfold executePayment, try_await, await at 1.
  destruct (createPaymentTransaction _ _ _ log) as [[transaction|e] log1];
    [|reflexivity].
  unfold await at 1. fold (submit client transaction signer).
  destruct (submit client transaction signer log1) as [[signature|e] log2];
    [|reflexivity].
  unfold await at 1. fold (payment_commitment client).
  rewrite confirm_cases.
  now destruct (rpc_confirmTransaction _ _ _) as [[err|]|e].
Qed.

(** What a successful submission has done. *)
Lemma submit_sent client transaction signer log signature log' :
  submit client transaction signer log = (Ok signature, log') ->
  exists calls wire options,
    log' = log ++ calls ++ [RpcSendRawTransaction wire options] /\
    sendRawTransaction (connection client) wire options = Ok signature.
Proof.
  destruct signer as [pk sk|pk sign]; unfold submit.
  - rewrite signAndSend_cases.
    destruct (Transaction_sign transaction pk) as [signed|e];
      [|discriminate].
    destruct (Transaction_serialize signed) as [wire|e]; [|discriminate].
    cbv zeta.
    destruct (sendRawTransaction (connection client) wire _)
      as [s|e] eqn:Hnode; [|discriminate].
    intros [= <- <-]. now exists [], wire, (Some (used_options None)).
  - unfold await, call, settled.
    destruct (sign transaction) as [signed|e]; [|discriminate].
    destruct (Transaction_serialize signed) as [wire|e]; [|discriminate].
    destruct (sendRawTransaction (connection client) wire None)
      as [s|e] eqn:Hnode; [|discriminate].
    intros [= <- <-].
    exists [WalletSignTransaction transaction], wire, None.
    split; [now rewrite <- List.app_assoc | assumption].
Qed.

(** X8.  [executePayment] returns a proof only after the transaction was
    submitted and the node, asked at the configured commitment (confirmed
    when none is configured), reported no error for it: the last two calls
    are the submission and the confirmation.  The proof carries the
    signature the node gave to the submission, the network and the request
    id of the requirements, and the time of the clock. *)
Theorem executePayment_proof client requirements signer log proof log' :
  executePayment client requirements signer log = (Ok proof, log') ->
  proof_network proof = network requirements /\
  proof_requestId proof = requestId requirements /\
  proof_timestamp proof = Date_now /\
  exists calls wire options,
    log' = log ++ calls ++
           [RpcSendRawTransaction wire options;
            RpcConfirmTransaction (proof_signature proof)
                                  (payment_commitment client)] /\
    sendRawTransaction (connection client) wire options
    = Ok (proof_signature proof) /\
    rpc_confirmTransaction (connection client) (proof_signature proof)
                           (payment_commitment client) = Ok None.
Proof.
  rewrite executePayment_cases.
  destruct (adds_build (connection client) (getPublicKey signer)
              requirements log) as (built & Hbuilt & _).
  destruct (createPaymentTransaction _ _ _ log) as [[transaction|e] log1];
    [|discriminate].
  simpl in Hbuilt. subst log1.
  destruct (submit client transaction signer (log ++ built))
    as [[signature|e] log2] eqn:Hsubmit; [|discriminate].
  destruct (submit_sent _ _ _ _ _ _ Hsubmit)
    as (calls & wire & options & -> & Hnode).
  cbv zeta.
  destruct (rpc_confirmTransaction _ _ _) as [[err|]|e] eqn:Hconfirmed;
    try discriminate.
  intros [= <- <-]. cbn [proof_network proof_requestId proof_timestamp
                          proof_signature].
  repeat split.
  exists (built ++ calls), wire, options. repeat split; try assumption.
  now rewrite <- !List.app_assoc.
Qed.

(** X9.  Whatever fails in [executePayment], the building, the signature,
    the submission or the confirmation, what is thrown is a
    [TransactionFailedError] whose message starts with "Payment execution
    failed: " and whose details are the cause.  In particular, when the
    node reports an error for the transaction that was submitted, the
    cause says that the transaction failed to confirm, and no proof is
    made. *)
Theorem executePayment_failure client requirements signer log :
  (forall e log',
     executePayment client requirements signer log = (Throw e, log') ->
     exists cause,
       e = TransactionFailedError
             ("Payment execution failed: " +:+ error_message cause)
             (Some cause)) /\
  (forall transaction log1 signature log2 err,
     createPaymentTransaction (connection client) (getPublicKey signer)
       requirements log = (Ok transaction, log1) ->
     submit client transaction signer log1 = (Ok signature, log2) ->
     rpc_confirmTransaction (connection client) signature
       (payment_commitment client) = Ok (Some err) ->
     executePayment client requirements signer log =
       (Throw (TransactionFailedError
                 ("Payment execution failed: Transaction failed to confirm at "
                  +:+ commitment_name (payment_commitment client) +:+
                  " commitment level")
                 (Some (not_confirmed (payment_commitment client)))),
        log2 ++ [RpcConfirmTransaction signature
                   (payment_commitment client)])).
Proof.
  rewrite executePayment_cases. split.
  - intros e log'.
    destruct (createPaymentTransaction _ _ _ log) as [[transaction|e1] log1];
      [|intros [= <- _]; now exists e1].
    destruct (submit client transaction signer log1)
      as [[signature|e2] log2]; [|intros [= <- _]; now exists e2].
    cbv zeta.
    destruct (rpc_confirmTransaction _ _ _) as [[err|]|e3];
      [| discriminate |]; intros [= <- _]; eauto.
  - intros transaction log1 signature log2 err Hbuild Hsubmit Hconfirm.
    rewrite Hbuild, Hsubmit. cbv zeta. rewrite Hconfirm. reflexivity.
Qed.

(** X11.  A response whose status is not 402, or any response when
    automatic payment is switched off, is handed back as it is after
    exactly one request, whatever signer and payment handler there are. *)
Theorem fetch_passes_through client url options response log :
  global_fetch url (fetchOptions options) = Ok response ->
  status response <> 402 \/ autoPayment options = Some false ->
  fetch client url options log =
    (Ok response, log ++ [HttpFetch url (fetchOptions options)]).
Proof.
  intros Hresponse Hplain. unfold fetch, await at 1, call.
  rewrite Hresponse.
  assert ((status response =? 402) &&
          match autoPayment options with Some b => b | None => true end
          = false) as ->; [|reflexivity].
  destruct Hplain as [Hstatus | ->]; [|apply andb_false_r].
  now destruct (Z.eqb_spec (status response) 402).
Qed.

(** X12.  A 402 response whose body is not JSON, or not payment
    requirements, makes [fetch] throw a plain [Error] saying that the
    requirements could not be parsed, with or without a signer; apart from
    the original request no call has been made. *)
Theorem fetch_malformed_challenge client url options response cause log :
  autoPayment options <> Some false ->
  global_fetch url (fetchOptions options) = Ok response ->
  status response = 402 ->
  (json response = Throw cause \/
   exists body_, json response = Ok body_ /\
                 PaymentRequirementsSchema_parse body_ = Throw cause) ->
  fetch client url options log =
    (Throw (JsError "Error"
              ("Failed to parse payment requirements: " +:+
               error_message cause)),
     log ++ [HttpFetch url (fetchOptions options)]).
Proof.
  intros Hauto Hresponse Hstatus Hbody.
  unfold fetch, await at 1, call. rewrite Hresponse, Hstatus.
  assert (match autoPayment options with Some b => b | None => true end
          = true) as ->
    by (destruct (autoPayment options) as [[]|]; congruence).
  simpl.
  assert (Hparse : forall l,
    parsePaymentRequirements response l =
      (Throw (JsError "Error"
                ("Failed to parse payment requirements: " +:+
                 error_message cause)), l)).
  { intros l. unfold parsePaymentRequirements, try_await, await, settled.
    destruct Hbody as [-> | (body_ & -> & ->)]; reflexivity. }
  destruct (match signer options with
            | Some s => Some s
            | None => config_signer (config client)
            end); unfold await at 1; now rewrite Hparse.
Qed.

End PaymentFacts.

(** * What the verifier accepts, and what it does not look at *)

Section VerifierFacts.

Context `{Web3}.

Lemma findIndex_some {A} (p : A -> bool) (l : list A) (i : nat) :
  findIndex p l = Some i ->
  exists x, nth_error l i = Some x /\ p x = true.
Proof.
  revert i. induction l as [|y l IH]; simpl; [discriminate|]. intros i.
  destruct (p y) eqn:Hy.
  - intros [= <-]. now exists y.
  - destruct (findIndex p l) as [j|]; [|discriminate].
    intros [= <-]. exact (IH j eq_refl).
Qed.

Lemma deep_of_too_young connection commitment tx :
  too_young connection commitment tx = Ok false ->
  deep_enough connection commitment tx.
Proof.
  unfold too_young, deep_enough. intros Hyoung -> Hslot.
  destruct (Z.eqb_spec (slot tx) 0) as [|_]; [contradiction|].
  simpl in Hyoung.
  destruct (getSlot connection finalized) as [currentSlot|e];
    [|discriminate].
  simpl in Hyoung. injection Hyoung as Hyoung.
  exists currentSlot. split; [reflexivity|].
  now destruct (Z.ltb_spec (currentSlot - slot tx) 32).
Qed.

(** An acceptance has reached the amount. *)
Lemma accepted_reaches connection signature requirements commitment :
  verifyPaymentTransaction connection signature requirements commitment
  = Ok true ->
  exists tx recipientKey expectedAmount,
    reaches_amount connection signature requirements commitment tx
                   recipientKey expectedAmount /\
    match token requirements with
    | SOL => verify_native tx recipientKey expectedAmount
    | _ => verify_token tx requirements recipientKey expectedAmount
    end = Ok true.
Proof.
  unfold verifyPaymentTransaction, verify_body, verify_transfer, try_catch.
  destruct (getTransaction connection signature commitment)
    as [[tx|]|e] eqn:Htx; simpl; try discriminate.
  destruct (meta_err tx) eqn:Herr; [discriminate|].
  destruct (too_young connection commitment tx) as [[]|e] eqn:Hyoung;
    simpl; try discriminate.
  destruct (PublicKey_new (recipient requirements))
    as [recipientKey|e] eqn:Hkey; simpl; [|discriminate].
  destruct (BigInt (amount requirements))
    as [expectedAmount|e] eqn:Hamount; simpl; [|discriminate].
  intros Hverdict. exists tx, recipientKey, expectedAmount. split.
  - repeat split; try assumption. now apply deep_of_too_young.
  - destruct (token requirements);
      match type of Hverdict with
      | match ?check with _ => _ end = _ =>
          destruct check as [[]|e];
          [reflexivity | discriminate | discriminate]
      end.
Qed.

(** X13.  The verifier accepts only what was paid.  When its verdict is
    [true], the node knows the transaction at the commitment asked for,
    the transaction succeeded and is deep enough, and, for SOL, an
    account key of the transaction equals the recipient and the balance
    of that account grew by the required amount at least; for a token, a
    token balance after the transaction is owned by the recipient, is of
    the mint of the token, and exceeds the balance before (zero when
    there is none) by the required amount at least. *)
Theorem verify_accepts_only_payments connection signature requirements
    commitment :
  verifyPaymentTransaction connection signature requirements commitment
  = Ok true ->
  exists tx recipientKey expectedAmount,
    reaches_amount connection signature requirements commitment tx
                   recipientKey expectedAmount /\
    match token requirements with
    | SOL =>
        exists keys i key,
          getAccountKeys tx = Ok keys /\
          nth_error keys i = Some key /\
          PublicKey_equals key recipientKey = true /\
          expectedAmount <=
            match meta tx with
            | Some m =>
                number_at (postBalances m) i - number_at (preBalances m) i
            | None => 0
            end
    | _ =>
        exists mintAddress post postAmount preAmount,
          PublicKey_new
            (TOKEN_MINTS (network requirements) (token requirements))
          = Ok mintAddress /\
          In post (posts_of tx) /\
          owner post = Some (toBase58 recipientKey) /\
          mint post = toBase58 mintAddress /\
          BigInt (uiTokenAmount_amount post) = Ok postAmount /\
          match find (balance_matches recipientKey mintAddress)
                     (pres_of tx) with
          | None => preAmount = 0
          | Some pre =>
              match uiTokenAmount_amount pre with
              | EmptyString => preAmount = 0
              | a => BigInt a = Ok preAmount
              end
          end /\
          expectedAmount <= postAmount - preAmount
    end.
Proof.
  intros Hverdict.
  destruct (accepted_reaches _ _ _ _ Hverdict)
    as (tx & recipientKey & expectedAmount & Hreach & Hcheck).
  exists tx, recipientKey, expectedAmount. split; [assumption|].
  assert (Htoken : forall t,
    verify_token tx requirements recipientKey expectedAmount = Ok true ->
    token requirements = t ->
    exists mintAddress post postAmount preAmount,
      PublicKey_new (TOKEN_MINTS (network requirements) t)
      = Ok mintAddress /\
      In post (posts_of tx) /\
      owner post = Some (toBase58 recipientKey) /\
      mint post = toBase58 mintAddress /\
      BigInt (uiTokenAmount_amount post) = Ok postAmount /\
      match find (balance_matches recipientKey mintAddress)
                 (pres_of tx) with
      | None => preAmount = 0
      | Some pre =>
          match uiTokenAmount_amount pre with
          | EmptyString => preAmount = 0
          | a => BigInt a = Ok preAmount
          end
      end /\
      expectedAmount <= postAmount - preAmount).
  { intros t Htok <-. revert Htok. unfold verify_token.
    fold (posts_of tx). fold (pres_of tx).
    destruct (PublicKey_new _) as [mintAddress|e] eqn:Hmintkey; simpl;
      [|discriminate].
    destruct (getAssociatedTokenAddress mintAddress recipientKey);
      simpl; [|discriminate].
    destruct (find (balance_matches recipientKey mintAddress) (posts_of tx))
      as [post|] eqn:Hpost; [|discriminate].
    destruct (find_some _ _ _ Hpost) as [Hin Hmatch].
    apply balance_matches_spec in Hmatch as [Howner Hmint].
    destruct (BigInt (uiTokenAmount_amount post)) as [postAmount|e]
      eqn:Hamount; simpl; [|discriminate].
    destruct (find (balance_matches recipientKey mintAddress) (pres_of tx))
      as [pre|] eqn:Hbefore; simpl.
    - destruct (uiTokenAmount_amount pre) as [|ch rest] eqn:Ha; simpl.
      + intros Hle. exists mintAddress, post, postAmount, 0.
        rewrite Hbefore, Ha. repeat split; try assumption.
        destruct (Z.ltb_spec (postAmount - 0) expectedAmount);
          [discriminate | assumption].
      + destruct (BigInt (String ch rest)) as [preAmount|e] eqn:Hpre;
          simpl; [|discriminate].
        intros Hle. exists mintAddress, post, postAmount, preAmount.
        rewrite Hbefore, Ha. repeat split; try assumption.
        destruct (Z.ltb_spec (postAmount - preAmount) expectedAmount);
          [discriminate | assumption].
    - intros Hle. exists mintAddress, post, postAmount, 0.
      rewrite Hbefore. repeat split; try assumption.
      destruct (Z.ltb_spec (postAmount - 0) expectedAmount);
        [discriminate | assumption]. }
  destruct (token requirements) eqn:Ht; try (now apply Htoken).
  revert Hcheck. unfold verify_native.
  destruct (getAccountKeys tx) as [keys|e]; simpl; [|discriminate].
  destruct (findIndex _ keys) as [i|] eqn:Hindex; [|discriminate].
  destruct (findIndex_some _ _ _ Hindex) as (key & Hkey & Hequal).
  intros Hle. exists keys, i, key. repeat split; try assumption.
  destruct (meta tx) as [m|];
    match type of Hle with
    | (if ?a <? ?b then _ else _) = _ =>
        destruct (Z.ltb_spec a b); [discriminate | lia]
    end.
Qed.

(** X14.  The verifier reads the recipient, the amount and the token of
    the requirements, and the network for a token only: requirements that
    agree on these get the same verdict for the same signature, whatever
    their scheme, memo, deadline and request id are. *)
Theorem verify_ignores_request_fields connection signature r1 r2
    commitment :
  recipient r1 = recipient r2 ->
  amount r1 = amount r2 ->
  token r1 = token r2 ->
  (token r1 <> SOL -> network r1 = network r2) ->
  verifyPaymentTransaction connection signature r1 commitment =
  verifyPaymentTransaction connection signature r2 commitment.
Proof.
  intros Hrecipient Hamount Htoken Hnetwork.
  unfold verifyPaymentTransaction, verify_body, verify_transfer,
    verify_token.
  rewrite <- Hrecipient, <- Hamount, <- Htoken.
  destruct (token r1); [reflexivity | |];
    now rewrite <- Hnetwork by discriminate.
Qed.

End VerifierFacts.

(** * Transaction status *)

Section StatusFacts.

Context `{StatusRpc}.

(** X15.  [getTransactionStatus] never throws.  It reports [finalized],
    or [confirmed], exactly when the node knows the signature at that
    status without an error; it reports [failed] both for a transaction
    with an error, whatever its confirmation status, and for a request
    to the node that failed. *)
Theorem getTransactionStatus_reports connection signature :
  (exists s, getTransactionStatus connection signature = Ok s) /\
  (forall c, c = confirmed \/ c = finalized ->
     (getTransactionStatus connection signature
      = Ok match c with
           | finalized => status_finalized
           | _ => status_confirmed
           end
      <-> exists value,
            getSignatureStatus connection signature = Ok (Some value) /\
            status_err value = None /\
            confirmationStatus value = Some c)) /\
  (getTransactionStatus connection signature = Ok status_failed
   <-> (exists e, getSignatureStatus connection signature = Throw e) \/
       (exists value e,
          getSignatureStatus connection signature = Ok (Some value) /\
          status_err value = Some e)).
Proof.
  unfold getTransactionStatus, try_catch.
  destruct (getSignatureStatus connection signature)
    as [[[[e|] [[]|]]|]|e]; simpl;
    (split; [eauto|]); (split; [intros c [-> | ->]|]);
    (split;
     [ try discriminate; intros _; eauto
     | try (intros (value & [= <-] & Herr & Hstatus);
            simpl in *; congruence);
       try (intros [(e' & He) | (value & e' & [= <-] & Herr)];
            simpl in *; congruence);
       try (intros (value & Hv & _); discriminate) ]).
Qed.

End StatusFacts.

(** * The cache of verified payments *)

(** X16.  A verdict that was stored is read back as long as no more than
    the time to live has passed, the boundary included, and the cache is
    left as it is; one millisecond later the answer is [null] and the
    entry is gone. *)
Theorem cache_get_after_set (signature : string) (v : bool) (stored now : Z)
    (c : PaymentCache) :
  let c1 := PaymentCache_set signature v stored c in
  (now - stored <= ttl c ->
   PaymentCache_get signature now c1 = (Some v, c1)) /\
  (ttl c < now - stored ->
   fst (PaymentCache_get signature now c1) = None /\
   cache (snd (PaymentCache_get signature now c1)) !! signature = None).
Proof.
  unfold PaymentCache_get, PaymentCache_set. cbn [cache ttl].
  rewrite lookup_insert_eq. cbn [timestamp verified]. split; intros Hage.
  - now destruct (Z.ltb_spec (ttl c) (now - stored)); [lia|].
  - destruct (Z.ltb_spec (ttl c) (now - stored)); [|lia].
    cbn [fst snd cache]. split; [reflexivity|]. apply lookup_delete_eq.
Qed.

(** X17.  The entries of the cache do not interfere: storing or reading
    under one signature changes nothing under another, and reading never
    changes the time to live. *)
Theorem cache_frame (signature other : string) (v : bool) (stored now : Z)
    (c : PaymentCache) :
  other <> signature ->
  fst (PaymentCache_get other now (PaymentCache_set signature v stored c))
  = fst (PaymentCache_get other now c) /\
  cache (snd (PaymentCache_get signature now c)) !! other
  = cache c !! other /\
  ttl (snd (PaymentCache_get signature now c)) = ttl c.
Proof.
  intros Hother. unfold PaymentCache_get, PaymentCache_set.
  cbn [cache ttl]. rewrite lookup_insert_ne by congruence.
  split.
  - destruct (cache c !! other) as [entry|]; [|reflexivity].
    now destruct (ttl c <? now - timestamp entry).
  - destruct (cache c !! signature) as [entry|]; [|now split].
    destruct (ttl c <? now - timestamp entry); [|now split].
    cbn [snd cache ttl]. split; [|reflexivity].
    now apply lookup_delete_ne.
Qed.

(** * The server *)

Section ServerFacts.

Context `{ServerRuntime}.

Lemma with_cache_same (server : X402Server) :
  with_cache server (server_cache server) = server.
Proof. now destruct server. Qed.

(** The amount of the requirements: the fraction is filled with zeros up
    to the precision and never cut. *)
Lemma requirements_amount server options now random (w : string)
    (fo : option string) :
  Js.split "." (option_amount options)
  = w :: match fo with Some f => [f] | None => [] end ->
  let f := match fo with Some f => f | None => EmptyString end in
  amount (createPaymentRequirements server options now random)
  = w +:+ f +:+
    zeros (decimals_nat (option_token options) - String.length f).
Proof.
  intros Hsplit f. unfold createPaymentRequirements. cbn [amount].
  rewrite Hsplit.
  assert (Js.index (w :: match fo with Some f => [f] | None => [] end) 1
          = fo) as -> by now destruct fo.
  cbn [Js.index nth_error]. fold f.
  replace (match option_token options with SOL => 9 | _ => 6 end)
    with (Z.of_nat (decimals_nat (option_token options)))
    by now destruct (option_token options).
  f_equal.
  destruct (Nat.le_gt_cases (String.length f)
              (decimals_nat (option_token options))) as [Hle|Hgt].
  - now apply padEnd_zeros.
  - replace (_ - _)%nat with 0%nat by lia. cbn [zeros].
    rewrite append_empty_r. unfold Js.padEnd, Js.len.
    now destruct (Z.leb_spec
                    (Z.of_nat (decimals_nat (option_token options)))
                    (Z.of_nat (String.length f))); [|lia].
Qed.

End ServerFacts.

Section ServerPaymentFacts.

Context `{ServerRuntime}.

(** X18.  For a valid decimal amount, the amount of the requirements the
    server makes is, read as an integer, what [amountToBaseUnits] gives
    for that amount and token. *)
Theorem requirements_amount_agrees server options now random :
  valid_amount (option_token options) (option_amount options) = true ->
  exists n,
    BigInt (amount (createPaymentRequirements server options now random))
    = Ok n /\
    amountToBaseUnits (option_amount options) (option_token options)
    = Ok n.
Proof.
  unfold valid_amount.
  destruct (split_point (option_amount options)) as [w fo] eqn:Hpoint.
  intros Hvalid. apply andb_prop in Hvalid as [Hw Hf].
  apply whole_canonical_digits in Hw.
  destruct (whole_digits_inv _ Hw) as [Hwd Hwne].
  set (token := option_token options) in *.
  assert (Hfd : match fo with
                | Some f => all_digits f = true /\
                            (String.length f <= decimals_nat token)%nat
                | None => True
                end).
  { destruct fo as [f|]; [|exact I].
    apply andb_prop in Hf as [Hfd Hlen]. split; [assumption|].
    apply Z.leb_le in Hlen. unfold Js.len in Hlen.
    rewrite decimals_nat_eq in Hlen. lia. }
  assert (Hsplit : Js.split "." (option_amount options)
                   = w :: match fo with Some f => [f] | None => [] end).
  { rewrite split_split_point, Hpoint. destruct fo as [f|]; [|reflexivity].
    now rewrite (split_digits f) by apply Hfd. }
  pose proof (requirements_amount server options now random w fo Hsplit)
    as Hamount.
  pose proof (amountToBaseUnits_parts token _ w fo Hsplit Hw) as Hcodec.
  cbv zeta in Hamount, Hcodec. fold token in Hamount.
  set (f := match fo with Some f => f | None => EmptyString end) in *.
  assert (Hfacts : all_digits f = true /\
                   (String.length f <= decimals_nat token)%nat).
  { subst f. destruct fo; [assumption|]. split; [reflexivity|simpl; lia]. }
  destruct Hfacts as [Hdigits Hlen].
  rewrite take_short in Hcodec
    by (rewrite length_append, length_zeros; lia).
  exists (digits_value
            (w +:+ f +:+ zeros (decimals_nat token - String.length f))).
  split.
  - rewrite Hamount. apply BigInt_digits.
    + now rewrite !digits_append, Hwd, Hdigits, digits_zeros.
    + destruct w; [congruence | discriminate].
  - apply Hcodec. now destruct fo; [apply Hfd|].
Qed.

(** X19.  A fraction longer than the precision of the token is not cut by
    the server: the amount of its requirements is the digits of the whole
    amount, at least ten times what [amountToBaseUnits] gives for the
    same amount, which drops the digits beyond the precision. *)
Theorem requirements_amount_beyond_precision server options now random
    (w f : string) :
  option_amount options = w +:+ "." +:+ f ->
  whole_digits w = true ->
  all_digits f = true ->
  TOKEN_DECIMALS (option_token options) < Js.len f ->
  exists asked paid,
    BigInt (amount (createPaymentRequirements server options now random))
    = Ok asked /\
    amountToBaseUnits (option_amount options) (option_token options)
    = Ok paid /\
    asked = digits_value w * 10 ^ Js.len f + digits_value f /\
    10 * paid <= asked.
Proof.
  intros Hamount Hw Hf Hlong.
  destruct (whole_digits_inv _ Hw) as [Hwd Hwne].
  set (token := option_token options) in *.
  pose proof (requirements_amount server options now random w (Some f))
    as Hasked.
  rewrite Hamount, split_whole_fraction in Hasked by assumption.
  specialize (Hasked eq_refl). cbv zeta in Hasked. fold token in Hasked.
  rewrite decimals_nat_eq in Hlong. unfold Js.len in Hlong.
  replace (decimals_nat token - String.length f)%nat with 0%nat in Hasked
    by lia.
  cbn [zeros] in Hasked. rewrite append_empty_r in Hasked.
  exists (digits_value (w +:+ f)),
         (digits_value w * 10 ^ TOKEN_DECIMALS token +
          digits_value f * 10 ^ TOKEN_DECIMALS token / 10 ^ Js.len f).
  split; [|split; [|split]].
  - rewrite Hasked. apply BigInt_digits.
    + now rewrite digits_append, Hwd, Hf.
    + destruct w; [congruence | discriminate].
  - rewrite Hamount. now apply amountToBaseUnits_value.
  - apply digits_value_append.
  - rewrite digits_value_append.
    pose proof (digits_value_bound w Hwd) as [Hw0 _].
    pose proof (digits_value_bound f Hf) as [Hf0 _].
    rewrite decimals_nat_eq. unfold Js.len.
    set (D := decimals_nat token) in *. set (L := String.length f) in *.
    replace (Z.of_nat L) with (Z.of_nat D + Z.of_nat (L - D - 1) + 1)
      by lia.
    rewrite !Z.pow_add_r by lia. change (10 ^ 1) with 10.
    set (p := 10 ^ Z.of_nat D). set (q := 10 ^ Z.of_nat (L - D - 1)).
    assert (Hp : 0 < p) by (apply Z.pow_pos_nonneg; lia).
    assert (Hq : 0 < q) by (apply Z.pow_pos_nonneg; lia).
    replace (p * q * 10) with (p * (q * 10)) by ring.
    rewrite (Z.mul_comm (digits_value f) p).
    rewrite Z.div_mul_cancel_l by lia.
    assert (Hcut : 10 * (digits_value f / (q * 10)) <= digits_value f).
    { pose proof (Z.mul_div_le (digits_value f) (q * 10)) as Hfloor.
      assert (0 <= digits_value f / (q * 10))
        by (apply Z.div_pos; lia).
      nia. }
    nia.
Qed.

(** X20.  A signature whose verdict is in the cache and has not expired
    gets that verdict, whatever the proof and the requirements say about
    the network, the deadline, the recipient or the amount; the node is
    not asked and the server stays as it is. *)
Theorem verifyPayment_cache_hit server c entry proof requirements
    now_get now_set :
  server_cache server = Some c ->
  cache c !! proof_signature proof = Some entry ->
  now_get - timestamp entry <= ttl c ->
  verifyPayment server proof requirements now_get now_set
  = (verified entry, server).
Proof.
  intros Hcache Hentry Hfresh. unfold verifyPayment, PaymentCache_get.
  rewrite Hcache, Hentry.
  destruct (Z.ltb_spec (ttl c) (now_get - timestamp entry)); [lia|].
  now rewrite <- Hcache, with_cache_same.
Qed.

(** X21.  Without a cached verdict, a proof for another network than the
    requirements', or with a time stamp after their deadline, is
    rejected; the rejection is not stored in the cache. *)
Theorem verifyPayment_rejects_before_ledger server proof requirements
    now_get now_set :
  (forall c, server_cache server = Some c ->
             fst (PaymentCache_get (proof_signature proof) now_get c)
             = None) ->
  proof_network proof <> network requirements \/
  (exists d, deadline requirements = Some d /\ d <> 0 /\
             d < proof_timestamp proof) ->
  fst (verifyPayment server proof requirements now_get now_set) = false /\
  server_cache (snd (verifyPayment server proof requirements
                                   now_get now_set))
  = option_map
      (fun c => snd (PaymentCache_get (proof_signature proof) now_get c))
      (server_cache server).
Proof.
  intros Hmiss Hearly. unfold verifyPayment.
  assert (Hgate :
    negb (network_eqb (proof_network proof) (network requirements)) = true
    \/ past_deadline proof requirements = true).
  { destruct Hearly as [Hnetwork | (d & Hd & Hset & Hlate)].
    - left. now destruct (proof_network proof), (network requirements).
    - right. unfold past_deadline. rewrite Hd.
      destruct (Z.eqb_spec d 0); [contradiction|].
      now destruct (Z.ltb_spec d (proof_timestamp proof)); [|lia]. }
  destruct (server_cache server) as [c|] eqn:Hcache.
  - specialize (Hmiss c eq_refl). simpl.
    destruct (PaymentCache_get (proof_signature proof) now_get c)
      as [cached c1].
    simpl in Hmiss. subst cached.
    destruct Hgate as [-> | Hlate]; [now split|].
    destruct (negb _); [now split|]. now rewrite Hlate.
  - destruct Hgate as [-> | Hlate]; [now split|].
    destruct (negb _); [now split|]. now rewrite Hlate.
Qed.

(** X22.  With the cache enabled, the verdict the verifier gives for a
    signature, a rejection included, is stored, and until it expires it
    is the answer for every proof with that signature, whatever the
    requirements then are. *)
Theorem verifyPayment_replays_verdict server c proof requirements t1 t2
    proof' requirements' t3 t4 :
  server_cache server = Some c ->
  fst (PaymentCache_get (proof_signature proof) t1 c) = None ->
  proof_network proof = network requirements ->
  past_deadline proof requirements = false ->
  proof_signature proof' = proof_signature proof ->
  t3 - t2 <= ttl c ->
  exists v,
    verifyPaymentTransaction (server_connection server)
      (proof_signature proof) requirements confirmed = Ok v /\
    fst (verifyPayment server proof requirements t1 t2) = v /\
    verifyPayment (snd (verifyPayment server proof requirements t1 t2))
                  proof' requirements' t3 t4
    = (v, snd (verifyPayment server proof requirements t1 t2)).
Proof.
  intros Hcache Hmiss Hnetwork Hdeadline Hsame Hfresh.
  destruct (verify_never_throws (server_connection server)
              (proof_signature proof) requirements confirmed)
    as [v Hv].
  exists v. split; [assumption|].
  unfold verifyPayment at 1 3 4. rewrite Hcache.
  destruct (PaymentCache_get (proof_signature proof) t1 c)
    as [cached c1] eqn:Hget.
  simpl in Hmiss. subst cached.
  assert (Httl : ttl c1 = ttl c).
  { revert Hget. unfold PaymentCache_get.
    destruct (cache c !! proof_signature proof) as [entry|];
      [|now intros [= <-]].
    destruct (ttl c <? t1 - timestamp entry); now intros [= <-]. }
  rewrite Hnetwork.
  assert (network_eqb (network requirements) (network requirements) = true)
    as -> by now destruct (network requirements).
  cbn [negb]. rewrite Hdeadline, Hv. cbn [fst snd option_map].
  split; [reflexivity|].
  unfold verifyPayment, PaymentCache_get.
  cbn [server_cache with_cache PaymentCache_set cache ttl].
  rewrite Hsame, lookup_insert_eq. cbn [timestamp verified].
  destruct (Z.ltb_spec (ttl c1) (t3 - t2)); [lia | reflexivity].
Qed.

Lemma parse_proof_error header error :
  parse_proof header = Throw error ->
  error_message error = "Invalid payment proof format".
Proof.
  unfold parse_proof, try_catch.
  destruct (match header with
            | HeaderText text => JSON_parse text
            | HeaderList values => Ok (JArr (map JStr values))
            end) as [parsed|e]; simpl.
  - destruct (PaymentProofSchema_parse parsed); [discriminate|].
    now intros [= <-].
  - now intros [= <-].
Qed.

(** X23.  The middleware lets a request through only with a header that
    parses as a payment proof for which [verifyPayment] answered [true];
    the payment it attaches is that proof, with the amount and the token
    of the options.  Otherwise it answers 402, or 500 with the message
    of an invalid proof when the header does not parse; a request without
    the header, or with an empty one, gets 402 with the requirements and
    leaves the server as it is. *)
Theorem requirePayment_outcomes server options paymentHeader r :
  let requirements :=
    createPaymentRequirements server options (now_id r) (random36 r) in
  (forall payment server',
     requirePayment server options paymentHeader r
     = (Next payment, server') ->
     exists header proof,
       paymentHeader = Some header /\
       parse_proof header = Ok proof /\
       verifyPayment server proof requirements (now_get r) (now_set r)
       = (true, server') /\
       payment = {| payment_proof := proof; payment_verified := true;
                    payment_amount := option_amount options;
                    payment_token := option_token options |}) /\
  (forall code content server',
     requirePayment server options paymentHeader r
     = (Respond code content, server') ->
     (code = 402 /\
      (content = BodyRequirements requirements \/
       content = BodyFailed "Payment verification failed" requirements)) \/
     (code = 500 /\
      content = BodyError "Payment processing error"
                          "Invalid payment proof format" /\
      server' = server)) /\
  (paymentHeader = None \/ paymentHeader = Some (HeaderText EmptyString) ->
   requirePayment server options paymentHeader r
   = (Respond 402 (BodyRequirements requirements), server)).
Proof.
  intros requirements. split; [|split].
  - intros payment server'. unfold requirePayment.
    destruct paymentHeader as [header|]; [|discriminate].
    assert (Hparsed :
      match parse_proof header with
      | Ok proof =>
          let (verified_, server1) :=
            verifyPayment server proof requirements (now_get r) (now_set r)
          in
          if negb verified_
          then (Respond 402
                  (BodyFailed "Payment verification failed" requirements),
                server1)
          else (Next {| payment_proof := proof; payment_verified := true;
                        payment_amount := option_amount options;
                        payment_token := option_token options |},
                server1)
      | Throw error =>
          (Respond 500
             (BodyError "Payment processing error" (error_message error)),
           server)
      end = (Next payment, server') ->
      exists header0 proof,
        Some header = Some header0 /\
        parse_proof header0 = Ok proof /\
        verifyPayment server proof requirements (now_get r) (now_set r)
        = (true, server') /\
        payment = {| payment_proof := proof; payment_verified := true;
                     payment_amount := option_amount options;
                     payment_token := option_token options |}).
    { destruct (parse_proof header) as [proof|e] eqn:Hproof;
        [|discriminate].
      destruct (verifyPayment server proof requirements _ _)
        as [[] server1] eqn:Hverify; simpl; [|discriminate].
      intros [= <- <-]. now exists header, proof. }
    destruct header as [[|ch text]|values]; [discriminate | |];
      exact Hparsed.
  - intros code content server'. unfold requirePayment.
    fold requirements.
    assert (Hparsed : forall header,
      match parse_proof header with
      | Ok proof =>
          let (verified_, server1) :=
            verifyPayment server proof requirements (now_get r) (now_set r)
          in
          if negb verified_
          then (Respond 402
                  (BodyFailed "Payment verification failed" requirements),
                server1)
          else (Next {| payment_proof := proof; payment_verified := true;
                        payment_amount := option_amount options;
                        payment_token := option_token options |},
                server1)
      | Throw error =>
          (Respond 500
             (BodyError "Payment processing error" (error_message error)),
           server)
      end = (Respond code content, server') ->
      (code = 402 /\
       (content = BodyRequirements requirements \/
        content = BodyFailed "Payment verification failed" requirements))
      \/ (code = 500 /\
          content = BodyError "Payment processing error"
                              "Invalid payment proof format" /\
          server' = server)).
    { intros header.
      destruct (parse_proof header) as [proof|e] eqn:Hproof.
      - destruct (verifyPayment server proof requirements _ _)
          as [[] server1]; simpl; [discriminate|].
        intros [= <- <- <-]. left. split; [reflexivity | now right].
      - intros [= <- <- <-]. right.
        now rewrite (parse_proof_error _ _ Hproof). }
    destruct paymentHeader as [[[|ch text]|values]|];
      try apply Hparsed;
      intros [= <- <- <-]; left; (split; [reflexivity | now left]).
  - intros [-> | ->]; reflexivity.
Qed.

End ServerPaymentFacts.

(** * The extras on samples *)

Section ServerSamples.

Import Sample SampleClient SampleServer.
#[local] Existing Instance text_keys.
#[local] Existing Instance runtime.
#[local] Existing Instance status_rpc.
#[local] Existing Instance server_runtime.

Lemma sol_build_out_of_range_witness :
  executePayment (client (Some keypair))
    (requirements SOL "9007199254740992") keypair [] =
    (Throw (TransactionFailedError
              ("Payment execution failed: " +:+
               "Amount 9007199254740992 exceeds safe integer range. " +:+
               "Use a smaller amount.")
              (Some (TransactionFailedError
                       ("Amount 9007199254740992 exceeds safe integer " +:+
                        "range. Use a smaller amount.") None))), []).
Proof.
  refine (proj2 (sol_build_out_of_range (paid 1000000) payer
                   (requirements SOL "9007199254740992") merchant
                   9007199254740992 [] eq_refl eq_refl eq_refl _)
            (client (Some keypair)) keypair eq_refl eq_refl).
  unfold MAX_SAFE_INTEGER. lia.
Defined.




Lemma executePayment_proof_witness :
  proof_network proof = network asked /\
  proof_requestId proof = requestId asked /\
  proof_timestamp proof = Date_now /\
  exists calls wire options,
    snd (executePayment (client (Some keypair)) asked keypair [])
    = [] ++ calls ++
      [RpcSendRawTransaction wire options;
       RpcConfirmTransaction (proof_signature proof)
         (payment_commitment (client (Some keypair)))] /\
    sendRawTransaction (connection (client (Some keypair))) wire options
    = Ok (proof_signature proof) /\
    rpc_confirmTransaction (connection (client (Some keypair)))
      (proof_signature proof) (payment_commitment (client (Some keypair)))
    = Ok None.
Proof.
  exact (executePayment_proof (client (Some keypair)) asked keypair []
           proof
           (snd (executePayment (client (Some keypair)) asked keypair []))
           eq_refl).
Defined.

Lemma executePayment_failure_witness :
  exists cause,
    payment_failed (not_confirmed confirmed) =
    TransactionFailedError
      ("Payment execution failed: " +:+ error_message cause) (Some cause).
Proof.
  exact (proj1 (executePayment_failure failing_client asked keypair [])
           (payment_failed (not_confirmed confirmed))
           (snd (executePayment failing_client asked keypair []))
           eq_refl).
Defined.

Lemma fetch_calls_bounded_witness :
  exists calls,
    snd (fetch (client (Some keypair)) "https://api.example.com/data"
           (options None None) []) = [] ++ calls /\
    (count is_http calls <= 2)%nat /\
    (count is_send calls <= 1)%nat.
Proof.
  exact (fetch_calls_bounded (client (Some keypair))
           "https://api.example.com/data" (options None None) [] eq_refl).
Defined.

Lemma fetch_passes_through_witness :
  fetch (client (Some keypair)) "https://api.example.com/data"
        (options (Some false) None) [] =
    (Ok challenge, [] ++ [HttpFetch "https://api.example.com/data" post]).
Proof.
  exact (fetch_passes_through (client (Some keypair))
           "https://api.example.com/data" (options (Some false) None)
           challenge [] eq_refl (or_intror eq_refl)).
Defined.

Lemma fetch_malformed_challenge_witness :
  fetch (H0 := broken) (client (Some keypair))
        "https://api.example.com/data" (options None None) [] =
    (Throw (JsError "Error"
              ("Failed to parse payment requirements: " +:+
               "Unexpected token < in JSON at position 0")),
     [] ++ [HttpFetch "https://api.example.com/data" post]).
Proof.
  refine (fetch_malformed_challenge (H0 := broken) (client (Some keypair))
            "https://api.example.com/data" (options None None)
            {| status := 402;
               json := Throw (JsError "SyntaxError"
                                "Unexpected token < in JSON at position 0") |}
            (JsError "SyntaxError"
                     "Unexpected token < in JSON at position 0")
            [] _ eq_refl eq_refl (or_introl eq_refl)).
  discriminate.
Defined.

Lemma verify_accepts_only_payments_witness :
  exists tx recipientKey expectedAmount,
    reaches_amount (paid 1000000) "sig1" asked confirmed tx
                   recipientKey expectedAmount /\
    exists keys i key,
      getAccountKeys tx = Ok keys /\
      nth_error keys i = Some key /\
      PublicKey_equals key recipientKey = true /\
      expectedAmount <=
        match meta tx with
        | Some m =>
            number_at (postBalances m) i - number_at (preBalances m) i
        | None => 0
        end.
Proof.
  exact (verify_accepts_only_payments (paid 1000000) "sig1" asked confirmed
           eq_refl).
Defined.

Lemma verify_ignores_request_fields_witness :
  verifyPaymentTransaction (paid 1000000) "sig1" asked confirmed =
  verifyPaymentTransaction (paid 1000000) "sig1"
    {| scheme := upto; network := mainnet_beta; amount := "1000000";
       token := SOL; recipient := merchant; memo := Some "another order";
       deadline := Some 1; requestId := Some "req_2" |} confirmed.
Proof.
  refine (verify_ignores_request_fields (paid 1000000) "sig1" asked _
            confirmed eq_refl eq_refl eq_refl _).
  intros Htoken. now destruct Htoken.
Defined.

Lemma getTransactionStatus_reports_witness :
  getTransactionStatus (paid 1000000) "sig1" = Ok status_finalized /\
  getTransactionStatus (paid 1000000) "sig2" = Ok status_failed.
Proof.
  split.
  - refine (proj2 (proj1 (proj2 (getTransactionStatus_reports
                                   (paid 1000000) "sig1"))
                     finalized (or_intror eq_refl)) _).
    exists {| status_err := None; confirmationStatus := Some finalized |}.
    split; [reflexivity | split; reflexivity].
  - refine (proj2 (proj2 (proj2 (getTransactionStatus_reports
                                   (paid 1000000) "sig2"))) _).
    right.
    exists {| status_err := Some "InstructionError";
              confirmationStatus := Some finalized |}, "InstructionError".
    split; reflexivity.
Defined.

Lemma cache_get_after_set_witness :
  PaymentCache_get "sig1" 300600
    (PaymentCache_set "sig1" true 600 (PaymentCache_new None))
  = (Some true, PaymentCache_set "sig1" true 600 (PaymentCache_new None)).
Proof.
  refine (proj1 (cache_get_after_set "sig1" true 600 300600
                   (PaymentCache_new None)) _).
  simpl. lia.
Defined.

Lemma cache_frame_witness :
  fst (PaymentCache_get "sig2" 700
         (PaymentCache_set "sig1" true 600 (PaymentCache_new None)))
  = fst (PaymentCache_get "sig2" 700 (PaymentCache_new None)) /\
  cache (snd (PaymentCache_get "sig1" 700 (PaymentCache_new None))) !! "sig2"
  = cache (PaymentCache_new None) !! "sig2" /\
  ttl (snd (PaymentCache_get "sig1" 700 (PaymentCache_new None)))
  = ttl (PaymentCache_new None).
Proof.
  refine (cache_frame "sig1" "sig2" true 600 700 (PaymentCache_new None) _).
  discriminate.
Defined.

Lemma requirements_amount_agrees_witness :
  exists n,
    BigInt (amount (createPaymentRequirements (createX402Server settings)
                      (price "0.001") 1700000000000 "0.4fzyo82mvyr"))
    = Ok n /\
    amountToBaseUnits "0.001" SOL = Ok n.
Proof.
  exact (requirements_amount_agrees (createX402Server settings)
           (price "0.001") 1700000000000 "0.4fzyo82mvyr" eq_refl).
Defined.

Lemma requirements_amount_beyond_precision_witness :
  exists asked_ paid_,
    BigInt (amount (createPaymentRequirements (createX402Server settings)
                      (price "0.0000000019") 1700000000000
                      "0.4fzyo82mvyr"))
    = Ok asked_ /\
    amountToBaseUnits "0.0000000019" SOL = Ok paid_ /\
    asked_ = digits_value "0" * 10 ^ Js.len "0000000019"
             + digits_value "0000000019" /\
    10 * paid_ <= asked_.
Proof.
  refine (requirements_amount_beyond_precision (createX402Server settings)
            (price "0.0000000019") 1700000000000 "0.4fzyo82mvyr"
            "0" "0000000019" eq_refl eq_refl eq_refl _).
  reflexivity.
Defined.

Lemma verifyPayment_cache_hit_witness :
  verifyPayment
    (with_cache (createX402Server settings)
       (Some (PaymentCache_set "sig1" true 600 (PaymentCache_new None))))
    proof (requirements SOL "5000000") 300600 300700
  = (true,
     with_cache (createX402Server settings)
       (Some (PaymentCache_set "sig1" true 600 (PaymentCache_new None)))).
Proof.
  refine (verifyPayment_cache_hit
            (with_cache (createX402Server settings)
               (Some (PaymentCache_set "sig1" true 600
                        (PaymentCache_new None))))
            (PaymentCache_set "sig1" true 600 (PaymentCache_new None))
            {| verified := true; timestamp := 600 |}
            proof (requirements SOL "5000000") 300600 300700
            eq_refl _ _).
  - vm_compute. reflexivity.
  - simpl. lia.
Defined.

Lemma verifyPayment_rejects_before_ledger_witness :
  fst (verifyPayment (createX402Server settings)
         {| proof_signature := "sig1"; proof_network := mainnet_beta;
            proof_requestId := None; proof_timestamp := 1700000000000 |}
         asked 500 600) = false /\
  server_cache
    (snd (verifyPayment (createX402Server settings)
            {| proof_signature := "sig1"; proof_network := mainnet_beta;
               proof_requestId := None; proof_timestamp := 1700000000000 |}
            asked 500 600))
  = option_map (fun c => snd (PaymentCache_get "sig1" 500 c))
               (server_cache (createX402Server settings)).
Proof.
  refine (verifyPayment_rejects_before_ledger (createX402Server settings)
            {| proof_signature := "sig1"; proof_network := mainnet_beta;
               proof_requestId := None; proof_timestamp := 1700000000000 |}
            asked 500 600 _ (or_introl _)).
  - intros c [= <-]. reflexivity.
  - discriminate.
Defined.

Lemma verifyPayment_replays_verdict_witness :
  exists v,
    verifyPaymentTransaction (server_connection (createX402Server settings))
      (proof_signature proof) asked confirmed = Ok v /\
    fst (verifyPayment (createX402Server settings) proof asked 500 600) = v /\
    verifyPayment
      (snd (verifyPayment (createX402Server settings) proof asked 500 600))
      proof (requirements SOL "5000000") 300600 300700
    = (v, snd (verifyPayment (createX402Server settings) proof asked
                 500 600)).
Proof.
  refine (verifyPayment_replays_verdict (createX402Server settings)
            (PaymentCache_new None) proof asked 500 600
            proof (requirements SOL "5000000") 300600 300700
            eq_refl eq_refl eq_refl eq_refl eq_refl _).
  simpl. lia.
Defined.

Lemma requirePayment_outcomes_witness :
  requirePayment (createX402Server settings) (price "0.001") None readings
  = (Respond 402
       (BodyRequirements
          (createPaymentRequirements (createX402Server settings)
             (price "0.001") (now_id readings) (random36 readings))),
     createX402Server settings).
Proof.
  exact (proj2 (proj2 (requirePayment_outcomes (createX402Server settings)
                         (price "0.001") None readings))
           (or_introl eq_refl)).
Defined.

End ServerSamples.
